(** * webpack.local.config.js: the development overlay of the bundler configuration

    The script loads the base configuration object, overwrites [entry],
    [output.publicPath] and [devtool], appends three plugin instances to
    [plugins] and one loader rule to [module.rules], and exports the very
    same object.  JavaScript objects are mutable and shared, so the script is
    embedded as a computation over a store of objects: a value is a primitive
    or a reference into the store, and every statement of the script is one
    or more steps of a state-and-exception monad.

    The head of the file loads four modules: [path] (unused), [webpack] and
    [webpack-bundle-tracker], the packages whose classes the script
    instantiates, and the base configuration.  None of them is part of this
    repository.  What the constructors of the packages do to an object they
    are given is a parameter of the development ([Packages]), and so is what
    running a module does ([load], in [script]); the body of the script,
    [overlay], takes the base configuration as its argument.

    The store holds data: plain objects, arrays, regular expressions and
    instances of classes of the packages, with the properties that are keyed
    by strings.  Function values, properties keyed by symbols, accessor
    properties, proxies, frozen objects and arrays with holes are outside the
    model. *)

From stdpp Require Import gmap strings list fin_maps pretty.
From Stdlib Require Import ZArith Ascii.

Open Scope string_scope.
Open Scope list_scope.

Set Warnings "-clear-no-such-hyp".

(** ** Values and objects *)

Abbreviation loc := nat.

(** Primitive values and references.  Numbers are stored, never computed
    with, by the overlay. *)
Inductive value :=
| VUndefined
| VNull
| VBool (b : bool)
| VNum (n : Z)
| VStr (s : string)
| VRef (l : loc).

Global Instance value_eq_dec : EqDecision value.
Proof. solve_decision. Defined.

(** Regular expression literals, as far as the two literals of the script
    need them: characters, sequencing, [?] and the end anchor [$]. *)
Inductive regex :=
| REmpty
| RChar (a : ascii)
| RSeq (r1 r2 : regex)
| ROpt (r : regex)
| REnd.

Global Instance regex_eq_dec : EqDecision regex.
Proof. solve_decision. Defined.

(** What an object is besides its named properties: a plain object, an array
    with its elements, a RegExp, or an instance built by [new C(args)] of a
    class of an external package (opaque: only the class and the constructor
    arguments are recorded). *)
Inductive kind :=
| KObject
| KArray (elems : list value)
| KRegExp (r : regex)
| KInstance (ctor : string) (args : list value).

Global Instance kind_eq_dec : EqDecision kind.
Proof. solve_decision. Defined.

Record object := Obj { kind_of : kind; props : gmap string value }.

Global Instance object_eq_dec : EqDecision object.
Proof. solve_decision. Defined.

Abbreviation heap := (list object).

Definition plain (ps : gmap string value) : object := Obj KObject ps.
Definition array (es : list value) : object := Obj (KArray es) ∅.
Definition regexp (r : regex) : object := Obj (KRegExp r) ∅.
Definition instance (c : string) (args : list value) : object :=
  Obj (KInstance c args) ∅.

(** ** Regular expressions: [RegExp.prototype.test] *)

(** [rmatch r s] lists what can remain of [s] after [r] has matched a prefix
    of it, the greedy choice first. *)
Fixpoint rmatch (r : regex) (s : list ascii) : list (list ascii) :=
  match r with
  | REmpty => [s]
  | RChar a =>
      match s with
      | b :: s' => if Ascii.eqb a b then [s'] else []
      | [] => []
      end
  | RSeq r1 r2 => rmatch r1 s ≫= rmatch r2
  | ROpt r1 => rmatch r1 s ++ [s]
  | REnd => match s with [] => [[]] | _ => [] end
  end.

Definition matches_here (r : regex) (s : list ascii) : bool :=
  match rmatch r s with [] => false | _ => true end.

(** Without the sticky and global flags [test] looks for a match starting at
    any position of the subject, the very end included. *)
Fixpoint search (r : regex) (s : list ascii) : bool :=
  matches_here r s ||
  match s with
  | [] => false
  | _ :: s' => search r s'
  end.

Definition regex_test (r : regex) (path : string) : bool :=
  search r (String.list_ascii_of_string path).

Fixpoint literal (w : list ascii) : regex :=
  match w with
  | [] => REmpty
  | a :: w' => RSeq (RChar a) (literal w')
  end.

(** [/\.jsx?$/] *)
Definition jsx_re : regex :=
  RSeq (RChar ".") (RSeq (RChar "j") (RSeq (RChar "s") (RSeq (ROpt (RChar "x")) REnd))).

(** [/node_modules/] *)
Definition node_modules_re : regex :=
  literal (String.list_ascii_of_string "node_modules").

(** The source text of a regular expression, as [toString] shows it. *)
Definition special (a : ascii) : bool :=
  bool_decide (a ∈ String.list_ascii_of_string ".?$\/()[]{}*+|^").

Fixpoint regex_source (r : regex) : string :=
  match r with
  | REmpty => ""
  | RChar a => if special a then String "\" (String a "") else String a ""
  | RSeq r1 r2 => regex_source r1 +:+ regex_source r2
  | ROpt r1 => regex_source r1 +:+ "?"
  | REnd => "$"
  end.

(** ** The monad of the script: a store that is threaded, and exceptions *)

(** The script throws nothing of its own; what can be thrown are the
    TypeErrors of property access, of calling something that is not a
    function, and of [concat] on an array whose [constructor] is not one.
    [DanglingRef] is not a JavaScript behaviour: it marks a reference that
    points outside the store, which no closed store has. *)
Inductive js_error :=
| CannotReadProperty (k : string) (base : value)
| CannotSetProperty (k : string) (base : value)
| NotAFunction (k : string)
| NotAConstructor (v : value)
| DanglingRef (l : loc).

Inductive outcome (A : Type) :=
| Return (a : A) (h : heap)
| Throw (e : js_error) (h : heap).
Arguments Return {A} a h.
Arguments Throw {A} e h.

Definition JS (A : Type) : Type := heap → outcome A.

Definition ret {A} (a : A) : JS A := λ h, Return a h.
Definition throw {A} (e : js_error) : JS A := λ h, Throw e h.
Definition bind {A B} (m : JS A) (f : A → JS B) : JS B :=
  λ h, match m h with
       | Return a h' => f a h'
       | Throw e h' => Throw e h'
       end.

Notation "'let*' x ':=' m 'in' k" := (bind m (λ x, k))
  (at level 10, x name, m at level 100, k at level 200).
Notation "m ';;;' k" := (bind m (λ _, k))
  (at level 100, k at level 200, right associativity).

(** ** Store operations *)

(** Object, array and regular expression literals and [new] all allocate; the
    store only grows, and a new object gets the next free address. *)
Definition alloc (o : object) : JS value :=
  λ h, Return (VRef (length h)) (h ++ [o]).

Definition set_field (k : string) (x : value) (o : object) : object :=
  Obj (kind_of o) (<[k := x]> (props o)).

Definition push_elem (x : value) (o : object) : object :=
  match kind_of o with
  | KArray es => Obj (KArray (es ++ [x])) (props o)
  | _ => o
  end.

(** Reading [v.k] for a data property.  None of the keys the script reads
    this way ([output], [plugins], [module], [rules]) is inherited from a
    built-in prototype, so the own property decides. *)
Definition get_prop (v : value) (k : string) : JS value :=
  match v with
  | VUndefined | VNull => throw (CannotReadProperty k v)
  | VRef l => λ h,
      match h !! l with
      | Some o => Return (default VUndefined (props o !! k)) h
      | None => Throw (DanglingRef l) h
      end
  | _ => ret VUndefined
  end.

(** The assignment [v.k = x].  The script is not in strict mode: assigning a
    property of a primitive is silently dropped. *)
Definition set_prop (v : value) (k : string) (x : value) : JS unit :=
  match v with
  | VUndefined | VNull => throw (CannotSetProperty k v)
  | VRef l => λ h,
      match h !! l with
      | Some _ => Return () (alter (set_field k x) l h)
      | None => Throw (DanglingRef l) h
      end
  | _ => ret ()
  end.

(** The built-in methods the script calls. *)
Inductive builtin := ArrayConcat | ArrayPush | StringConcat.

(** Reading [v.k] in call position: the built-in method it resolves to, or
    [None] when the property is absent or an own data property (the store
    holds no function values). *)
Definition inherited (kd : kind) (k : string) : option builtin :=
  match kd with
  | KArray _ =>
      if String.eqb k "concat" then Some ArrayConcat
      else if String.eqb k "push" then Some ArrayPush
      else None
  | _ => None
  end.

Definition get_method (v : value) (k : string) : JS (option builtin) :=
  match v with
  | VUndefined | VNull => throw (CannotReadProperty k v)
  | VStr _ => ret (if String.eqb k "concat" then Some StringConcat else None)
  | VRef l => λ h,
      match h !! l with
      | Some o =>
          match props o !! k with
          | Some _ => Return None h
          | None => Return (inherited (kind_of o) k) h
          end
      | None => Throw (DanglingRef l) h
      end
  | _ => ret None
  end.

(** [ToString], for the string concatenation. *)
Fixpoint join (sep : string) (ss : list string) : string :=
  match ss with
  | [] => ""
  | [s] => s
  | s :: ss' => s +:+ sep +:+ join sep ss'
  end.

Fixpoint display (fuel : nat) (h : heap) (v : value) : string :=
  match v with
  | VUndefined => "undefined"
  | VNull => "null"
  | VBool b => if b then "true" else "false"
  | VNum n => pretty n
  | VStr s => s
  | VRef l =>
      match kind_of <$> h !! l with
      | Some (KArray es) =>
          match fuel with
          | O => ""
          | S fuel' =>
              join "," (map (λ e, match e with
                                  | VUndefined | VNull => ""
                                  | _ => display fuel' h e
                                  end) es)
          end
      | Some (KRegExp r) => "/" +:+ regex_source r +:+ "/"
      | _ => "[object Object]"
      end
  end.

(** The elements an argument of [concat] contributes: an array is spread. *)
Definition spread (h : heap) (v : value) : list value :=
  match v with
  | VRef l =>
      match kind_of <$> h !! l with
      | Some (KArray es) => es
      | _ => [v]
      end
  | _ => [v]
  end.

(** [concat] creates its result with [ArraySpeciesCreate]: called on an
    array, it reads the array's [constructor].  An array that has no own
    [constructor] inherits [Array], and a plain array is created; so it is
    when the own [constructor] is [undefined], or an object of the store, none
    of which has a [Symbol.species].  Any other own [constructor] is not a
    constructor, and [concat] throws a TypeError.  [species_fault] is that
    [constructor], if there is one. *)
Definition species_fault (o : object) : option value :=
  match kind_of o, props o !! "constructor" with
  | KArray _, Some v =>
      match v with
      | VUndefined | VRef _ => None
      | _ => Some v
      end
  | _, _ => None
  end.

Definition species_of (h : heap) (this : value) : option value :=
  match this with
  | VRef l => h !! l ≫= species_fault
  | _ => None
  end.

(** The call [this.k(arg)] once [this.k] has been read and the argument
    evaluated. *)
Definition call (f : option builtin) (k : string) (this arg : value) : JS value :=
  match f with
  | None => throw (NotAFunction k)
  | Some ArrayConcat => λ h,
      match species_of h this with
      | Some v => Throw (NotAConstructor v) h
      | None => alloc (array (spread h this ++ spread h arg)) h
      end
  | Some ArrayPush =>
      match this with
      | VRef l => λ h,
          match h !! l with
          | Some o =>
              match kind_of o with
              | KArray es =>
                  Return (VNum (Z.of_nat (S (length es)))) (alter (push_elem arg) l h)
              | _ => Throw (NotAFunction k) h
              end
          | None => Throw (DanglingRef l) h
          end
      | _ => throw (NotAFunction k)
      end
  | Some StringConcat => λ h, Return (VStr (display 2 h this +:+ display 2 h arg)) h
  end.

(** ** The packages *)

(** The classes the script instantiates belong to [webpack] and
    [webpack-bundle-tracker], which are not part of this repository.  An
    instance is opaque: the store records the class and the arguments of the
    constructor, and says nothing of the properties of the instance.  A
    constructor can also assign properties of an object it is given (the
    bundle tracker fills in defaults in its options); what it leaves there is
    not known from the script, and is a parameter: [configure c ps] are the
    properties an object that had the properties [ps] has when the constructor
    of the class [c] is done with it. *)
Class Packages := configure : string → gmap string value → gmap string value.

Section script.
Context {pk : Packages}.

Definition configured (c : string) (o : object) : object :=
  Obj (kind_of o) (configure c (props o)).

(** The constructor of [c] is handed the argument [v]. *)
Definition hand_over (c : string) (v : value) (h : heap) : heap :=
  match v with
  | VRef l => alter (configured c) l h
  | _ => h
  end.

(** [new C(args)] for a class of a package, which is taken to export the
    class; the constructor is taken to return normally. *)
Definition construct (c : string) (args : list value) : JS value :=
  λ h, alloc (instance c args) (foldr (hand_over c) h args).

(** ** The script *)

Definition dev_client : string := "webpack-dev-server/client?http://localhost:3000".
Definition hot_runtime : string := "webpack/hot/only-dev-server".
Definition app_entry : string := "../assets/js/app.js".
Definition public_path : string := "http://localhost:3000/assets/bundles/".
Definition stats_file : string := "./webpack-stats.json".
Definition source_map : string := "inline-source-map".

(** The statements of webpack.local.config.js, in the order of the file.
    [config] is the object that [require('./webpack.base.config.js')]
    returned. *)

(** [config.entry = [ ... ]] *)
Definition set_entry (config : value) : JS unit :=
  let* entry := alloc (array [VStr dev_client; VStr hot_runtime; VStr app_entry]) in
  set_prop config "entry" entry.

(** [config.output.publicPath = 'http://localhost:3000/assets/bundles/'] *)
Definition set_public_path (config : value) : JS unit :=
  let* output := get_prop config "output" in
  set_prop output "publicPath" (VStr public_path).

(** [config.plugins = config.plugins.concat([ new ..., new ..., new ... ])]:
    the method is read before the argument is evaluated, and called after. *)
Definition extend_plugins (config : value) : JS unit :=
  let* plugins := get_prop config "plugins" in
  let* concat := get_method plugins "concat" in
  let* hmr := construct "HotModuleReplacementPlugin" [] in
  let* noemit := construct "NoEmitOnErrorsPlugin" [] in
  let* options := alloc (plain {[ "filename" := VStr stats_file ]}) in
  let* tracker := construct "BundleTracker" [options] in
  let* added := alloc (array [hmr; noemit; tracker]) in
  let* extended := call concat "concat" plugins added in
  set_prop config "plugins" extended.

(** [config.devtool = 'inline-source-map'] *)
Definition set_devtool (config : value) : JS unit :=
  set_prop config "devtool" (VStr source_map).

(** [config.module.rules.push({ test: ..., exclude: ..., loaders: [...] })] *)
Definition push_rule (config : value) : JS value :=
  let* module := get_prop config "module" in
  let* rules := get_prop module "rules" in
  let* push := get_method rules "push" in
  let* test := alloc (regexp jsx_re) in
  let* exclude := alloc (regexp node_modules_re) in
  let* loaders := alloc (array [VStr "babel-loader"]) in
  let* rule := alloc (plain (<["test" := test]> (<["exclude" := exclude]>
                              {[ "loaders" := loaders ]}))) in
  call push "push" rules rule.

(** The whole script; the result is the value assigned to [module.exports]. *)
Definition overlay (config : value) : JS value :=
  set_entry config ;;;
  set_public_path config ;;;
  extend_plugins config ;;;
  set_devtool config ;;;
  push_rule config ;;;
  ret config.

(** The script run [k] times in a row, each run on the object the run before
    it exported. *)
Fixpoint repeat_overlay (k : nat) (config : value) : JS value :=
  match k with
  | O => ret config
  | S k' => let* exported := overlay config in repeat_overlay k' exported
  end.
End script.

(** A package whose bundle tracker completes its options as
    webpack-bundle-tracker 0.x does:
    [options.filename = options.filename || 'webpack-stats.json'], and
    [options.logTime = false] if it is [undefined]. *)
Definition truthy (v : value) : bool :=
  match v with
  | VUndefined | VNull => false
  | VBool b => b
  | VNum n => negb (n =? 0)%Z
  | VStr s => negb (String.eqb s "")
  | VRef _ => true
  end.

Definition tracker_defaults (ps : gmap string value) : gmap string value :=
  let ps' :=
    if truthy (default VUndefined (ps !! "filename")) then ps
    else <["filename" := VStr "webpack-stats.json"]> ps in
  match default VUndefined (ps' !! "logTime") with
  | VUndefined => <["logTime" := VBool false]> ps'
  | _ => ps'
  end.

Definition sample_packages : Packages :=
  λ c ps, if String.eqb c "BundleTracker" then tracker_defaults ps else ps.

(** ** A base configuration to run the script on *)

Definition sample_heap : heap :=
  [ plain (<["context" := VStr "/srv/app"]> (<["entry" := VStr "./assets/js/index"]>
          (<["output" := VRef 1]> (<["plugins" := VRef 2]>
          (<["devtool" := VStr "eval"]>
          (<["module" := VRef 4]> {[ "resolve" := VRef 6 ]}))))));
    plain (<["path" := VStr "/srv/app/assets/bundles/"]>
          (<["filename" := VStr "[name]-[hash].js"]>
          {[ "publicPath" := VStr "/static/bundles/" ]}));
    array [VRef 3];
    instance "ProvidePlugin" [];
    plain {[ "rules" := VRef 5 ]};
    array [VRef 8];
    plain {[ "extensions" := VRef 7 ]};
    array [VStr ".js"; VStr ".jsx"];
    plain (<["test" := VRef 9]> {[ "loader" := VStr "json-loader" ]});
    regexp (literal (String.list_ascii_of_string ".json")) ].

Definition sample_config : value := VRef 0.

(** The same configuration without [output], without [plugins], and with a
    [module] that has no [rules]. *)
Definition sample_without_output : heap :=
  [ plain (<["plugins" := VRef 1]> {[ "module" := VRef 2 ]});
    array [];
    plain {[ "rules" := VRef 3 ]};
    array [] ].

Definition sample_without_plugins : heap :=
  [ plain (<["output" := VRef 1]> {[ "module" := VRef 2 ]});
    plain {[ "path" := VStr "/srv/app/assets/bundles/" ]};
    plain {[ "rules" := VRef 3 ]};
    array [] ].

Definition sample_without_rules : heap :=
  [ plain (<["output" := VRef 1]> (<["plugins" := VRef 2]> {[ "module" := VRef 3 ]}));
    plain {[ "path" := VStr "/srv/app/assets/bundles/" ]};
    array [VRef 4];
    plain {[ "noParse" := VNull ]};
    instance "ProvidePlugin" [] ].

(** A configuration that has every field the script goes through, with a
    [plugins] that is an object and not an array. *)
Definition sample_with_plugins_object : heap :=
  [ plain (<["entry" := VStr "./assets/js/index"]> (<["output" := VRef 1]>
          (<["plugins" := VRef 2]> (<["devtool" := VStr "eval"]>
          {[ "module" := VRef 3 ]}))));
    plain {[ "publicPath" := VStr "/static/bundles/" ]};
    plain ∅;
    plain {[ "rules" := VRef 4 ]};
    array [] ].

(** A configuration whose [plugins] is an array with an own [constructor]
    that is a number. *)
Definition sample_with_plugins_species : heap :=
  [ plain (<["output" := VRef 1]> (<["plugins" := VRef 2]> {[ "module" := VRef 3 ]}));
    plain ∅;
    Obj (KArray [VRef 5]) {[ "constructor" := VNum 5 ]};
    plain {[ "rules" := VRef 4 ]};
    array [];
    instance "ProvidePlugin" [] ].

(** A configuration whose [output] is a string, and one whose [plugins] is. *)
Definition sample_with_output_string : heap :=
  [ plain (<["output" := VStr "assets/bundles"]> (<["plugins" := VRef 1]>
          {[ "module" := VRef 2 ]}));
    array [];
    plain {[ "rules" := VRef 3 ]};
    array [] ].

Definition sample_with_plugins_string : heap :=
  [ plain (<["output" := VRef 1]> (<["plugins" := VStr "provide"]>
          {[ "module" := VRef 2 ]}));
    plain ∅;
    plain {[ "rules" := VRef 3 ]};
    array [] ].

(** ** Observing the store *)

(** The own property [k] of the object at [l]. *)
Definition field (h : heap) (l : loc) (k : string) : option value :=
  h !! l ≫= λ o, props o !! k.

Definition kind_at (h : heap) (l : loc) : option kind :=
  kind_of <$> h !! l.

(** An array that shadows nothing of what the script uses of
    [Array.prototype] with own properties, neither the methods [concat] and
    [push] nor the [constructor] that [concat] reads: what the script expects
    [plugins] and [module.rules] to be. *)
Definition is_sequence (h : heap) (l : loc) (es : list value) : Prop :=
  kind_at h l = Some (KArray es) ∧ field h l "concat" = None ∧
  field h l "push" = None ∧ field h l "constructor" = None.

(** ** Closed stores *)

Definition value_in (n : nat) (v : value) : Prop :=
  match v with
  | VRef l => l < n
  | _ => True
  end.

Definition kind_in (n : nat) (kd : kind) : Prop :=
  match kd with
  | KArray es => Forall (value_in n) es
  | KInstance _ args => Forall (value_in n) args
  | _ => True
  end.

Definition object_in (n : nat) (o : object) : Prop :=
  kind_in n (kind_of o) ∧ map_Forall (λ _, value_in n) (props o).

(** Every reference held by an object of the store points into the store. *)
Definition heap_closed (h : heap) : Prop :=
  Forall (object_in (length h)) h.

(** The constructors of the packages put no reference into an object they are
    given that the object did not hold: none that dangles. *)
Definition keeps_closed (pk : Packages) : Prop :=
  ∀ n c ps, map_Forall (λ _, value_in n) ps → map_Forall (λ _, value_in n) (configure c ps).

Global Instance value_in_dec n v : Decision (value_in n v).
Proof. destruct v; simpl; apply _. Defined.

Global Instance kind_in_dec n kd : Decision (kind_in n kd).
Proof. destruct kd; simpl; apply _. Defined.

Global Instance object_in_dec n o : Decision (object_in n o).
Proof. unfold object_in. apply _. Defined.

Global Instance heap_closed_dec h : Decision (heap_closed h).
Proof. unfold heap_closed. apply _. Defined.

(** ** Base configurations *)

(** The shape of configuration the script runs through: the configuration
    is an object at [lc] whose [output] is an object at [lo], whose [plugins]
    is a sequence at [lp] with elements [ps], and whose [module] is an object
    at [lm] whose [rules] is a sequence at [lr] with elements [rs].  Nothing
    is asked of [entry], [devtool] and [output.publicPath], and nothing
    forbids that some of these objects are one and the same. *)
Record base_config (h : heap) (lc lo lp lm lr : loc) (ps rs : list value) : Prop := {
  bc_output : field h lc "output" = Some (VRef lo);
  bc_plugins : field h lc "plugins" = Some (VRef lp);
  bc_plugins_seq : is_sequence h lp ps;
  bc_module : field h lc "module" = Some (VRef lm);
  bc_rules : field h lm "rules" = Some (VRef lr);
  bc_rules_seq : is_sequence h lr rs
}.

(** ** The store after the script, in closed form *)

Section closed_form.
Context {pk : Packages}.

(** The eleven objects the script allocates, [n] being the size of the store
    it started from and [ps] the plugins of the base configuration.  The
    fourth is the options of the bundle tracker, as its constructor leaves
    them. *)
Definition rule_object (n : nat) : object :=
  plain (<["test" := VRef (n + 7)]> (<["exclude" := VRef (n + 8)]>
        {[ "loaders" := VRef (n + 9) ]})).

Definition fresh (n : nat) (ps : list value) : heap :=
  [ array [VStr dev_client; VStr hot_runtime; VStr app_entry];
    instance "HotModuleReplacementPlugin" [];
    instance "NoEmitOnErrorsPlugin" [];
    configured "BundleTracker" (plain {[ "filename" := VStr stats_file ]});
    instance "BundleTracker" [VRef (n + 3)];
    array [VRef (n + 1); VRef (n + 2); VRef (n + 4)];
    array (ps ++ [VRef (n + 1); VRef (n + 2); VRef (n + 4)]);
    regexp jsx_re;
    regexp node_modules_re;
    array [VStr "babel-loader"];
    rule_object n ].

(** The store when the first four statements are done. *)
Definition before_push (h : heap) (lc lo : loc) (ps : list value) : heap :=
  let n := length h in
  alter (set_field "devtool" (VStr source_map)) lc
    (alter (set_field "plugins" (VRef (n + 6))) lc
      (alter (set_field "publicPath" (VStr public_path)) lo
        (alter (set_field "entry" (VRef n)) lc h)))
  ++ take 7 (fresh n ps).

(** The objects of the base configuration as the script leaves them. *)
Definition mutated (h : heap) (lc lo lr : loc) : heap :=
  let n := length h in
  alter (push_elem (VRef (n + 10))) lr
    (alter (set_field "devtool" (VStr source_map)) lc
      (alter (set_field "plugins" (VRef (n + 6))) lc
        (alter (set_field "publicPath" (VStr public_path)) lo
          (alter (set_field "entry" (VRef n)) lc h)))).

Definition overlay_heap (h : heap) (lc lo lr : loc) (ps : list value) : heap :=
  mutated h lc lo lr ++ fresh (length h) ps.
End closed_form.

(** The slots of the base configuration the script assigns to. *)
Definition touched (lc lo : loc) (l : loc) (k : string) : Prop :=
  (l = lc ∧ k ∈ ["entry"; "plugins"; "devtool"]) ∨ (l = lo ∧ k = "publicPath").

(** ** Malformed configurations *)

(** The object at [l] exists and has no own property [k]. *)
Definition lacks (h : heap) (l : loc) (k : string) : Prop :=
  l < length h ∧ field h l k = None.

(** The configuration at [lc] has no [module.rules]: it has no [module], or
    its [module] is an object that has no [rules]. *)
Definition missing_rules (h : heap) (lc : loc) : Prop :=
  lacks h lc "module" ∨ ∃ lm, field h lc "module" = Some (VRef lm) ∧ lacks h lm "rules".

(** ** A program logic for the script *)

(** [triple P m Q E]: started in a store that satisfies [P], the computation
    [m] either returns a value and a store related by [Q], or throws an error
    that satisfies [E]. *)
Definition triple {A} (P : heap → Prop) (m : JS A)
    (Q : A → heap → Prop) (E : js_error → Prop) : Prop :=
  ∀ h, P h → match m h with
             | Return a h' => Q a h'
             | Throw e _ => E e
             end.

(** What the statements of the script maintain, relative to the store [h0]
    they started from: the store has only grown, and the objects of [h0] have
    the properties they had, except for the keys [ks] assigned so far. *)
Definition unchanged (ks : list string) (h0 h : heap) : Prop :=
  (length h0 ≤ length h)%nat ∧
  ∀ l k, l < length h0 → k ∉ ks → field h l k = field h0 l k.

(** Reading [v.k] in the store [h0]. *)
Definition read (h0 : heap) (v : value) (k : string) : value :=
  match v with
  | VRef l => default VUndefined (field h0 l k)
  | _ => VUndefined
  end.

Definition nullish (v : value) : Prop := v = VUndefined ∨ v = VNull.

(** The TypeErrors of access the script can run into: a property of
    [undefined] or [null] is read or assigned, or something that is not a
    function is called. *)
Definition access_error (e : js_error) : Prop :=
  match e with
  | CannotReadProperty _ v | CannotSetProperty _ v => nullish v
  | NotAFunction _ => True
  | NotAConstructor _ | DanglingRef _ => False
  end.

(** All its TypeErrors: those, and that of [concat] when something that is
    not a constructor is to build its result. *)
Definition type_error (e : js_error) : Prop :=
  match e with
  | NotAConstructor _ => True
  | _ => access_error e
  end.

(** ** Every outcome of the script *)

Global Instance nullish_dec v : Decision (nullish v).
Proof. unfold nullish. apply _. Defined.

(** What [v.k] resolves to in call position, in the store [h]. *)
Definition method_of (h : heap) (v : value) (k : string) : option builtin :=
  match v with
  | VStr _ => if String.eqb k "concat" then Some StringConcat else None
  | VRef l =>
      match field h l k with
      | Some _ => None
      | None =>
          match kind_at h l with
          | Some kd => inherited kd k
          | None => None
          end
      end
  | _ => None
  end.

(** The store after the assignment [v.k = x], when [v] is neither [undefined]
    nor [null]. *)
Definition assign (v : value) (k : string) (x : value) (h : heap) : heap :=
  match v with
  | VRef l => alter (set_field k x) l h
  | _ => h
  end.

(** The error the script ends with, read from the store it starts in: the
    statements are tried in the order of the file, and the first that cannot
    be run decides.  [None] when every statement can be run. *)
Definition fault_of (h : heap) (config : value) : option js_error :=
  if decide (nullish config) then Some (CannotSetProperty "entry" config) else
  let output := read h config "output" in
  if decide (nullish output) then Some (CannotSetProperty "publicPath" output) else
  let plugins := read h config "plugins" in
  if decide (nullish plugins) then Some (CannotReadProperty "concat" plugins) else
  if method_of h plugins "concat" is None then Some (NotAFunction "concat") else
  if species_of h plugins is Some v then Some (NotAConstructor v) else
  let module := read h config "module" in
  if decide (nullish module) then Some (CannotReadProperty "rules" module) else
  let rules := read h module "rules" in
  if decide (nullish rules) then Some (CannotReadProperty "push" rules) else
  if method_of h rules "push" is None then Some (NotAFunction "push") else
  None.

(** The slots a run assigns to, for the configuration [c] with the [output]
    [vo]: the keys [ks] of the configuration, and [publicPath] of the output,
    if that is an object. *)
Definition touched_by (c vo : value) (ks : list string) (l : loc) (k : string) : Prop :=
  (c = VRef l ∧ k ∈ ks) ∨ (vo = VRef l ∧ k = "publicPath").

(** The store [h] extends [h0], and the objects of [h0] are in [h] as they were
    in [h0], but for the slots in [T]. *)
Definition kept (T : loc → string → Prop) (h0 h : heap) : Prop :=
  (length h0 ≤ length h)%nat ∧
  (∀ l k, l < length h0 → ¬ T l k → field h l k = field h0 l k) ∧
  (∀ l, l < length h0 → kind_at h l = kind_at h0 l).

(** The configurations on which the script runs through: an object whose
    [output] is neither [undefined] nor [null], whose [plugins] can be
    extended with [concat] (a string, or an array that does not shadow the
    method and whose own [constructor], if it has one, is [undefined] or an
    object), and whose [module] is an object with a [rules] that is an array
    with its [push]. *)
Definition default_species (c : option value) : Prop :=
  c = None ∨ c = Some VUndefined ∨ ∃ l, c = Some (VRef l).

Definition has_concat (h : heap) (v : value) : Prop :=
  (∃ s, v = VStr s) ∨
  (∃ lp ps, v = VRef lp ∧ kind_at h lp = Some (KArray ps) ∧ field h lp "concat" = None ∧
            default_species (field h lp "constructor")).

Definition runs_through (h : heap) (c : value) : Prop :=
  ∃ lc vo vp lm lr rs,
    c = VRef lc ∧
    field h lc "output" = Some vo ∧ ¬ nullish vo ∧
    field h lc "plugins" = Some vp ∧ has_concat h vp ∧
    field h lc "module" = Some (VRef lm) ∧
    field h lm "rules" = Some (VRef lr) ∧
    kind_at h lr = Some (KArray rs) ∧ field h lr "push" = None.

(** ** The same configuration at other addresses *)

(** Addresses are not observable in JavaScript: two configurations are equal
    when one is the other up to a renaming [ρ] of addresses. *)
Definition rename_value (ρ : loc → loc) (v : value) : value :=
  match v with
  | VRef l => VRef (ρ l)
  | _ => v
  end.

Definition rename_kind (ρ : loc → loc) (kd : kind) : kind :=
  match kd with
  | KArray es => KArray (rename_value ρ <$> es)
  | KInstance c args => KInstance c (rename_value ρ <$> args)
  | _ => kd
  end.

Definition rename_object (ρ : loc → loc) (o : object) : object :=
  Obj (rename_kind ρ (kind_of o)) (rename_value ρ <$> props o).

Definition rename_error (ρ : loc → loc) (e : js_error) : js_error :=
  match e with
  | CannotReadProperty k v => CannotReadProperty k (rename_value ρ v)
  | CannotSetProperty k v => CannotSetProperty k (rename_value ρ v)
  | NotAFunction k => NotAFunction k
  | NotAConstructor v => NotAConstructor (rename_value ρ v)
  | DanglingRef l => DanglingRef (ρ l)
  end.

(** The constructors of the packages do not depend on addresses either. *)
Definition address_blind (pk : Packages) : Prop :=
  ∀ ρ c ps, Inj (=) (=) ρ →
    configure c (rename_value ρ <$> ps) = rename_value ρ <$> configure c ps.

(** [h2] holds at [ρ l] what [h1] holds at [l], renamed, and the addresses
    the two stores will allocate next correspond, in order.  [h2] may hold
    more objects, at addresses outside the range of [ρ]. *)
Definition similar (ρ : loc → loc) (h1 h2 : heap) : Prop :=
  (∀ l, h2 !! ρ l = rename_object ρ <$> h1 !! l) ∧
  (∀ i, ρ (length h1 + i) = length h2 + i).

(** Two outcomes are the same up to [ρ]: both return, or both throw the same
    error, and the stores they leave are similar. *)
Definition same_outcome {A} (ρ : loc → loc) (R : A → A → Prop)
    (o1 o2 : outcome A) : Prop :=
  match o1, o2 with
  | Return a1 h1, Return a2 h2 => R a1 a2 ∧ similar ρ h1 h2
  | Throw e1 h1, Throw e2 h2 => e2 = rename_error ρ e1 ∧ similar ρ h1 h2
  | _, _ => False
  end.

Definition corresponds {A} (ρ : loc → loc) (R : A → A → Prop) (m1 m2 : JS A) : Prop :=
  ∀ h1 h2, similar ρ h1 h2 → same_outcome ρ R (m1 h1) (m2 h2).

Definition renamed (ρ : loc → loc) (v1 v2 : value) : Prop := v2 = rename_value ρ v1.

(** The sample configuration at other addresses, behind an object that is
    not part of it. *)
Definition shifted_heap : heap :=
  instance "DefinePlugin" [] :: (rename_object S <$> sample_heap).

(** ** The process: the modules the script loads *)

(** The script is a module of a Node process, and its first lines load four
    modules with [require].  A module that is not a core module of Node and
    has not been loaded yet in the process is searched for and read in the
    filesystem, and run; what it exports is remembered, so that it is read
    once.  [reads] lists the modules that were read for the [require]s of
    this script, oldest first.  What a package reads in turn, when it is
    loaded or when one of its classes is looked up, is for the package to say,
    and is not listed. *)
Record process := Process {
  cache : gmap string value;
  store : heap;
  reads : list string
}.

Inductive result (A : Type) :=
| Done (a : A) (w : process)
| Failed (e : js_error) (w : process).
Arguments Done {A} a w.
Arguments Failed {A} e w.

Definition Node (A : Type) : Type := process → result A.

Definition and_then {A B} (m : Node A) (f : A → Node B) : Node B :=
  λ w, match m w with
       | Done a w' => f a w'
       | Failed e w' => Failed e w'
       end.

Notation "'let!' x ':=' m 'in' k" := (and_then m (λ x, k))
  (at level 10, x name, m at level 100, k at level 200).

(** A computation on the store, in the process. *)
Definition run {A} (m : JS A) : Node A :=
  λ w, match m (store w) with
       | Return a h => Done a (Process (cache w) h (reads w))
       | Throw e h => Failed e (Process (cache w) h (reads w))
       end.

(** The modules that are compiled into Node: they are not read. *)
Definition core_modules : list string :=
  ["assert"; "async_hooks"; "buffer"; "child_process"; "cluster"; "console";
   "constants"; "crypto"; "dgram"; "dns"; "domain"; "events"; "fs"; "http";
   "http2"; "https"; "inspector"; "module"; "net"; "os"; "path"; "perf_hooks";
   "process"; "punycode"; "querystring"; "readline"; "repl"; "stream";
   "string_decoder"; "sys"; "timers"; "tls"; "trace_events"; "tty"; "url";
   "util"; "v8"; "vm"; "worker_threads"; "zlib"].

Definition core_module (m : string) : bool := bool_decide (m ∈ core_modules).

Definition noted (m : string) (rs : list string) : list string :=
  if core_module m then rs else rs ++ [m].

Section process.
Context {pk : Packages}.

(** [load m] is what running the module [m] does: to the store, and the value
    it exports, or the error it ends with (also when there is no such
    module).  The modules are not part of this repository. *)
Variable load : string → JS value.

Definition require (m : string) : Node value :=
  λ w, match cache w !! m with
       | Some exports => Done exports w
       | None =>
           match load m (store w) with
           | Return exports h =>
               Done exports (Process (<[m := exports]> (cache w)) h (noted m (reads w)))
           | Throw e h => Failed e (Process (cache w) h (noted m (reads w)))
           end
       end.

(** webpack.local.config.js, from its first line to the last; the result is
    the value of [module.exports].  Of [webpack] and [BundleTracker] the
    script uses nothing but the classes; the packages are taken to export
    them, and [construct] takes them by their names. *)
Definition script : Node value :=
  let! path := require "path" in
  let! webpack := require "webpack" in
  let! BundleTracker := require "webpack-bundle-tracker" in
  let! config := require "./webpack.base.config.js" in
  run (overlay config).
End process.

(** The modules of the script that are not core modules, in the order in
    which it requires them, and those that a process with the cache [c] has
    yet to read. *)
Definition required : list string :=
  ["webpack"; "webpack-bundle-tracker"; "./webpack.base.config.js"].

Definition unread (c : gmap string value) : list string :=
  filter (λ m, c !! m = None) required.

(** The classes of the instances in the store, in the order in which they
    were built. *)
Definition class_of (o : object) : option string :=
  match kind_of o with
  | KInstance c _ => Some c
  | _ => None
  end.

Definition classes (h : heap) : list string := omap class_of h.

(** [builds m cs]: the computation [m] builds instances of the classes [cs],
    one after the other, and no other instance; when it throws, it has built
    the first of them. *)
Definition builds {A} (m : JS A) (cs : list string) : Prop :=
  ∀ h, match m h with
       | Return _ h' => classes h' = classes h ++ cs
       | Throw _ h' => ∃ pre, pre `prefix_of` cs ∧ classes h' = classes h ++ pre
       end.

(** Modules to run the script with: the packages export an object, the base
    configuration is the sample configuration, built when its module runs. *)
Definition sample_load (m : string) : JS value :=
  if String.eqb m "./webpack.base.config.js"
  then λ h, Return (VRef (length h))
                   (h ++ (rename_object (λ l, length h + l) <$> sample_heap))
  else alloc (plain ∅).

Definition fresh_process : process := Process ∅ [] [].

(** ** What the appended rule selects *)

Definition ends_with (s suffix : string) : Prop := ∃ p, s = p +:+ suffix.
Definition contains (s w : string) : Prop := ∃ p q, s = p +:+ w +:+ q.

(** * Properties *)

(** ** Reading the store through updates *)

Section observe.
Implicit Types (h : heap) (l : loc) (k : string) (x : value) (o : object).

Lemma field_Some h l k v : field h l k = Some v → l < length h.
Proof.
  unfold field. destruct (h !! l) eqn:E; [|done].
  intros _. by eapply lookup_lt_Some.
Qed.

Lemma kind_at_Some h l kd : kind_at h l = Some kd → l < length h.
Proof.
  unfold kind_at. destruct (h !! l) eqn:E; [|done].
  intros _. by eapply lookup_lt_Some.
Qed.

Lemma field_app_l h h' l k : l < length h → field (h ++ h') l k = field h l k.
Proof. intros. unfold field. by rewrite lookup_app_l. Qed.

Lemma kind_at_app_l h h' l : l < length h → kind_at (h ++ h') l = kind_at h l.
Proof. intros. unfold kind_at. by rewrite lookup_app_l. Qed.

Lemma field_set_ne h l l' k k' x :
  k ≠ k' → field (alter (set_field k x) l h) l' k' = field h l' k'.
Proof.
  intros. unfold field. rewrite list_lookup_alter.
  case_decide; [subst|done].
  destruct (h !! l'); [simpl|done]. by rewrite lookup_insert_ne.
Qed.

Lemma field_set_ne_loc h l l' k k' x :
  l ≠ l' → field (alter (set_field k x) l h) l' k' = field h l' k'.
Proof. intros. unfold field. by rewrite list_lookup_alter_ne. Qed.

Lemma field_alter_ne h (f : object → object) l l' k :
  l ≠ l' → field (alter f l h) l' k = field h l' k.
Proof. intros. unfold field. by rewrite list_lookup_alter_ne. Qed.

Lemma kind_at_alter_ne h (f : object → object) l l' :
  l ≠ l' → kind_at (alter f l h) l' = kind_at h l'.
Proof. intros. unfold kind_at. by rewrite list_lookup_alter_ne. Qed.

Lemma field_set_eq h l k x :
  l < length h → field (alter (set_field k x) l h) l k = Some x.
Proof.
  intros Hl. unfold field. rewrite list_lookup_alter_eq.
  destruct (lookup_lt_is_Some_2 h l Hl) as [o ->]. simpl.
  by rewrite lookup_insert_eq.
Qed.

Lemma field_push h l l' k x :
  field (alter (push_elem x) l h) l' k = field h l' k.
Proof.
  unfold field. rewrite list_lookup_alter.
  case_decide; [subst|done].
  destruct (h !! l') as [o|]; [simpl|done].
  unfold push_elem. by destruct (kind_of o).
Qed.

Lemma kind_at_set h l l' k x :
  kind_at (alter (set_field k x) l h) l' = kind_at h l'.
Proof.
  unfold kind_at. rewrite list_lookup_alter.
  case_decide; [subst|done]. by destruct (h !! l').
Qed.

Lemma kind_at_push_ne h l l' x :
  l ≠ l' → kind_at (alter (push_elem x) l h) l' = kind_at h l'.
Proof. intros. unfold kind_at. by rewrite list_lookup_alter_ne. Qed.

Lemma kind_at_push_eq h l x es :
  kind_at h l = Some (KArray es) →
  kind_at (alter (push_elem x) l h) l = Some (KArray (es ++ [x])).
Proof.
  unfold kind_at. rewrite list_lookup_alter_eq.
  destruct (h !! l) as [o|]; [simpl|done].
  intros [= E]. unfold push_elem. by rewrite E.
Qed.

Lemma kind_at_snoc h o n : length h = n → kind_at (h ++ [o]) n = Some (kind_of o).
Proof. intros <-. unfold kind_at. by rewrite list_lookup_middle. Qed.

Lemma is_sequence_lt h l es : is_sequence h l es → l < length h.
Proof. intros [? _]. by eapply kind_at_Some. Qed.
End observe.

(** ** Closed stores hold no dangling reference *)

Lemma heap_closed_field h l k l' :
  heap_closed h → field h l k = Some (VRef l') → l' < length h.
Proof.
  intros Hc Hf. unfold field in Hf.
  destruct (h !! l) as [o|] eqn:E; [simpl in Hf|done].
  destruct (Forall_lookup_1 _ _ _ _ Hc E) as [_ Hp].
  apply (Hp k (VRef l') Hf).
Qed.

Lemma heap_closed_elems h l es :
  heap_closed h → kind_at h l = Some (KArray es) → Forall (value_in (length h)) es.
Proof.
  intros Hc Hk. unfold kind_at in Hk.
  destruct (h !! l) as [o|] eqn:E; [simpl in Hk|done].
  destruct (Forall_lookup_1 _ _ _ _ Hc E) as [Hkd _].
  injection Hk as Hk. by rewrite Hk in Hkd.
Qed.

Ltac len := repeat first [rewrite length_app | rewrite length_alter]; simpl; lia.

Ltac observe :=
  repeat first
    [ rewrite field_push
    | rewrite kind_at_set
    | rewrite field_set_ne by done
    | rewrite field_app_l by len
    | rewrite kind_at_app_l by len ].

Ltac vals :=
  repeat (apply List.Forall_cons; [simpl; first [done | lia]|]); apply List.Forall_nil.

(** What is proved of the script from here on holds whatever the
    constructors of the packages do to the objects they are given. *)
Section packages.
Context {pk : Packages}.

(** ** One step of the script at a time *)

Section steps.
Context {A : Type}.
Implicit Types (f : value → JS A) (h : heap).

Lemma bind_assoc {B C} (m : JS B) (g : B → JS C) (k : C → JS A) h :
  bind (bind m g) k h = bind m (λ x, bind (g x) k) h.
Proof. unfold bind. by destruct (m h). Qed.

Lemma bind_alloc n o f h :
  length h = n → bind (alloc o) f h = f (VRef n) (h ++ [o]).
Proof. by intros <-. Qed.

Lemma bind_construct n c f h :
  length h = n → bind (construct c []) f h = f (VRef n) (h ++ [instance c []]).
Proof. by intros <-. Qed.

(** The constructor is given the object that was allocated last. *)
Lemma bind_construct_with n m c o f h :
  length h = n → m = S n →
  bind (construct c [VRef n]) f (h ++ [o])
  = f (VRef m) ((h ++ [configured c o]) ++ [instance c [VRef n]]).
Proof.
  intros <- ->. unfold bind, construct, alloc. simpl.
  rewrite length_alter, length_app. simpl.
  replace (length h + 1) with (S (length h)) by lia.
  do 2 f_equal. rewrite alter_app_r_alt by lia.
  by rewrite Nat.sub_diag.
Qed.

Lemma bind_set_prop l k x (g : unit → JS A) h :
  l < length h →
  bind (set_prop (VRef l) k x) g h = g () (alter (set_field k x) l h).
Proof.
  intros Hl. unfold bind, set_prop.
  by destruct (lookup_lt_is_Some_2 h l Hl) as [o ->].
Qed.

Lemma bind_get_prop l k f h :
  l < length h →
  bind (get_prop (VRef l) k) f h = f (default VUndefined (field h l k)) h.
Proof.
  intros Hl. unfold bind, get_prop, field.
  by destruct (lookup_lt_is_Some_2 h l Hl) as [o ->].
Qed.

Lemma bind_get_prop_Some l k v f h :
  field h l k = Some v → bind (get_prop (VRef l) k) f h = f v h.
Proof.
  intros Hf. rewrite bind_get_prop by (by eapply field_Some). by rewrite Hf.
Qed.

Lemma bind_get_method l k kd (g : option builtin → JS A) h :
  kind_at h l = Some kd → field h l k = None →
  bind (get_method (VRef l) k) g h = g (inherited kd k) h.
Proof.
  unfold bind, get_method, field, kind_at.
  destruct (h !! l) as [o|]; [simpl|done].
  intros [= <-] ->. done.
Qed.

Lemma species_of_None h l :
  field h l "constructor" = None → species_of h (VRef l) = None.
Proof.
  unfold field, species_of, species_fault.
  destruct (h !! l) as [o|]; [simpl|done]. intros ->. by destruct (kind_of o).
Qed.

Lemma bind_concat l k es l' es' n f h :
  kind_at h l = Some (KArray es) → field h l "constructor" = None →
  kind_at h l' = Some (KArray es') →
  length h = n →
  bind (call (Some ArrayConcat) k (VRef l) (VRef l')) f h
  = f (VRef n) (h ++ [array (es ++ es')]).
Proof.
  intros Hl Hc Hl' <-. unfold bind, call. rewrite species_of_None by done.
  unfold alloc, spread. unfold kind_at in Hl, Hl'. by rewrite Hl, Hl'.
Qed.

Lemma bind_push l k es x f h :
  kind_at h l = Some (KArray es) →
  bind (call (Some ArrayPush) k (VRef l) x) f h
  = f (VNum (Z.of_nat (S (length es)))) (alter (push_elem x) l h).
Proof.
  unfold bind, call, kind_at.
  destruct (h !! l) as [o|]; [simpl|done]. by intros [= ->].
Qed.
End steps.

(** ** The script on a base configuration *)

Lemma prefix_run {B} (rest : JS B) h lc lo lp ps :
  lo < length h →
  field h lc "output" = Some (VRef lo) →
  field h lc "plugins" = Some (VRef lp) →
  is_sequence h lp ps →
  (set_entry (VRef lc) ;;; set_public_path (VRef lc) ;;;
   extend_plugins (VRef lc) ;;; set_devtool (VRef lc) ;;; rest) h
  = rest (before_push h lc lo ps).
Proof.
  intros Hlo Ho Hp (Hpk & Hpc & Hpp & Hps).
  pose proof (field_Some _ _ _ _ Ho) as Hlc.
  pose proof (kind_at_Some _ _ _ Hpk) as Hlp.
  unfold set_entry, set_public_path, extend_plugins, set_devtool.
  rewrite !bind_assoc.
  rewrite (bind_alloc (length h)) by done.
  rewrite bind_set_prop by len.
  rewrite !bind_assoc.
  rewrite (bind_get_prop_Some _ _ (VRef lo)) by (by observe).
  rewrite bind_set_prop by len.
  rewrite !bind_assoc.
  rewrite (bind_get_prop_Some _ _ (VRef lp)) by (by observe).
  rewrite !bind_assoc.
  rewrite (bind_get_method _ _ (KArray ps)) by (by observe).
  rewrite !bind_assoc.
  rewrite (bind_construct (length h + 1)) by len.
  rewrite !bind_assoc.
  rewrite (bind_construct (length h + 2)) by len.
  rewrite !bind_assoc.
  rewrite (bind_alloc (length h + 3)) by len.
  rewrite !bind_assoc.
  rewrite (bind_construct_with (length h + 3) (length h + 4)) by len.
  rewrite !bind_assoc.
  rewrite (bind_alloc (length h + 5)) by len.
  rewrite !bind_assoc.
  change (inherited (KArray ps) "concat") with (Some ArrayConcat).
  rewrite (bind_concat _ _ ps _ [VRef (length h + 1); VRef (length h + 2); VRef (length h + 4)]
             (length h + 6)); [|by observe|by observe|by apply kind_at_snoc; len|len].
  rewrite bind_set_prop by len.
  rewrite bind_set_prop by len.
  f_equal. unfold before_push, fresh. simpl take.
  repeat rewrite alter_app_l by len.
  repeat rewrite <- app_assoc. done.
Qed.

Lemma length_before_push h lc lo ps : length (before_push h lc lo ps) = length h + 7.
Proof. unfold before_push. len. Qed.

Lemma field_before_push h lc lo ps l k :
  l < length h → k ∉ ["entry"; "publicPath"; "plugins"; "devtool"] →
  field (before_push h lc lo ps) l k = field h l k.
Proof.
  intros Hl Hk. unfold before_push. rewrite field_app_l by len.
  rewrite !field_set_ne; [done|intros <-; apply Hk; set_solver..].
Qed.

Lemma kind_at_before_push h lc lo ps l :
  l < length h → kind_at (before_push h lc lo ps) l = kind_at h l.
Proof.
  intros Hl. unfold before_push. rewrite kind_at_app_l by len.
  by rewrite !kind_at_set.
Qed.

Lemma overlay_run_in h lc lo lp lm lr ps rs :
  lo < length h → lm < length h → base_config h lc lo lp lm lr ps rs →
  overlay (VRef lc) h = Return (VRef lc) (overlay_heap h lc lo lr ps).
Proof.
  intros Hlo Hlm [Ho Hp Hps Hm Hr (Hrk & Hrc & Hrp & Hrs)].
  pose proof (field_Some _ _ _ _ Ho) as Hlc.
  pose proof (kind_at_Some _ _ _ Hrk) as Hlr.
  unfold overlay. rewrite (prefix_run _ h lc lo lp ps) by done.
  unfold push_rule. rewrite !bind_assoc.
  rewrite (bind_get_prop_Some _ _ (VRef lm))
    by (by rewrite field_before_push by (done || set_solver)).
  rewrite !bind_assoc.
  rewrite (bind_get_prop_Some _ _ (VRef lr))
    by (by rewrite field_before_push by (done || set_solver)).
  rewrite !bind_assoc.
  rewrite (bind_get_method _ _ (KArray rs));
    [|by rewrite kind_at_before_push|by rewrite field_before_push by (done || set_solver)].
  rewrite !bind_assoc.
  rewrite (bind_alloc (length h + 7)) by (rewrite length_before_push; lia).
  rewrite !bind_assoc.
  rewrite (bind_alloc (length h + 8)) by (rewrite length_app, length_before_push; simpl; lia).
  rewrite !bind_assoc.
  rewrite (bind_alloc (length h + 9))
    by (rewrite !length_app, length_before_push; simpl; lia).
  rewrite !bind_assoc.
  rewrite (bind_alloc (length h + 10))
    by (rewrite !length_app, length_before_push; simpl; lia).
  change (inherited (KArray rs) "push") with (Some ArrayPush).
  rewrite (bind_push _ _ rs)
    by (rewrite !kind_at_app_l by (rewrite ?length_app, length_before_push; simpl; lia);
        by rewrite kind_at_before_push).
  unfold ret, overlay_heap, mutated, fresh, rule_object, before_push. f_equal.
  simpl take.
  repeat rewrite alter_app_l by len.
  repeat rewrite <- app_assoc. done.
Qed.

Lemma overlay_run h lc lo lp lm lr ps rs :
  heap_closed h → base_config h lc lo lp lm lr ps rs →
  overlay (VRef lc) h = Return (VRef lc) (overlay_heap h lc lo lr ps).
Proof.
  intros Hc Hb. eapply overlay_run_in; [| |done].
  - eapply heap_closed_field; [done|]. by destruct Hb.
  - eapply heap_closed_field; [done|]. by destruct Hb.
Qed.

(** ** The store the script leaves *)

Section final_store.
Variables (h : heap) (lc lo lr : loc) (ps : list value).

Lemma length_mutated : length (mutated h lc lo lr) = length h.
Proof. unfold mutated. len. Qed.

Lemma length_overlay_heap : length (overlay_heap h lc lo lr ps) = length h + 11.
Proof. unfold overlay_heap. rewrite length_app, length_mutated. done. Qed.

Lemma overlay_heap_old l :
  l < length h → overlay_heap h lc lo lr ps !! l = mutated h lc lo lr !! l.
Proof. intros. unfold overlay_heap. rewrite lookup_app_l; [done|]. by rewrite length_mutated. Qed.

Lemma overlay_heap_new i :
  overlay_heap h lc lo lr ps !! (length h + i) = fresh (length h) ps !! i.
Proof.
  unfold overlay_heap. rewrite lookup_app_r; rewrite length_mutated; [|lia].
  f_equal. lia.
Qed.

Lemma overlay_heap_untouched l :
  l < length h → l ≠ lc → l ≠ lo → l ≠ lr → overlay_heap h lc lo lr ps !! l = h !! l.
Proof.
  intros. rewrite overlay_heap_old by done. unfold mutated.
  by rewrite !list_lookup_alter_ne.
Qed.

Lemma field_overlay_heap l k :
  l < length h → field (overlay_heap h lc lo lr ps) l k = field (mutated h lc lo lr) l k.
Proof. intros. unfold field. by rewrite overlay_heap_old. Qed.

Lemma kind_at_overlay_heap l :
  l < length h → kind_at (overlay_heap h lc lo lr ps) l = kind_at (mutated h lc lo lr) l.
Proof. intros. unfold kind_at. by rewrite overlay_heap_old. Qed.

(** A key the script never assigns keeps its value in every object. *)
Lemma field_mutated_key l k :
  k ∉ ["entry"; "publicPath"; "plugins"; "devtool"] →
  field (mutated h lc lo lr) l k = field h l k.
Proof.
  intros Hk. unfold mutated. rewrite field_push.
  rewrite !field_set_ne; [done|intros <-; apply Hk; set_solver..].
Qed.

(** A slot the script never assigns keeps its value. *)
Lemma field_mutated_frame l k :
  ¬ touched lc lo l k → field (mutated h lc lo lr) l k = field h l k.
Proof.
  intros Hk. unfold mutated. rewrite field_push.
  assert (∀ h' l' k' x, ¬ (l = l' ∧ k = k') →
    field (alter (set_field k' x) l' h') l k = field h' l k) as step.
  { intros h' l' k' x Hne.
    destruct (decide (l' = l)) as [->|?]; [|by apply field_set_ne_loc].
    apply field_set_ne. naive_solver. }
  rewrite !step; [done|intros [-> ->]; apply Hk; unfold touched; set_solver..].
Qed.

Lemma field_overlay_heap_key l k :
  l < length h → k ∉ ["entry"; "publicPath"; "plugins"; "devtool"] →
  field (overlay_heap h lc lo lr ps) l k = field h l k.
Proof. intros. rewrite field_overlay_heap by done. by apply field_mutated_key. Qed.

Lemma field_overlay_heap_entry :
  lc < length h → field (overlay_heap h lc lo lr ps) lc "entry" = Some (VRef (length h)).
Proof.
  intros. rewrite field_overlay_heap by done. unfold mutated. observe.
  apply field_set_eq. len.
Qed.

Lemma field_overlay_heap_public_path :
  lo < length h →
  field (overlay_heap h lc lo lr ps) lo "publicPath" = Some (VStr public_path).
Proof.
  intros. rewrite field_overlay_heap by done. unfold mutated. observe.
  apply field_set_eq. len.
Qed.

Lemma field_overlay_heap_plugins :
  lc < length h →
  field (overlay_heap h lc lo lr ps) lc "plugins" = Some (VRef (length h + 6)).
Proof.
  intros. rewrite field_overlay_heap by done. unfold mutated. observe.
  apply field_set_eq. len.
Qed.

Lemma field_overlay_heap_devtool :
  lc < length h →
  field (overlay_heap h lc lo lr ps) lc "devtool" = Some (VStr source_map).
Proof.
  intros. rewrite field_overlay_heap by done. unfold mutated. observe.
  apply field_set_eq. len.
Qed.

Lemma overlay_heap_entry :
  overlay_heap h lc lo lr ps !! length h
  = Some (array [VStr dev_client; VStr hot_runtime; VStr app_entry]).
Proof. rewrite <- (Nat.add_0_r (length h)) at 1. by rewrite overlay_heap_new. Qed.

Lemma kind_at_mutated l :
  l ≠ lr → kind_at (mutated h lc lo lr) l = kind_at h l.
Proof. intros. unfold mutated. rewrite kind_at_push_ne by done. by rewrite !kind_at_set. Qed.

Lemma kind_at_mutated_rules rs :
  kind_at h lr = Some (KArray rs) →
  kind_at (mutated h lc lo lr) lr = Some (KArray (rs ++ [VRef (length h + 10)])).
Proof. intros. unfold mutated. apply kind_at_push_eq. by rewrite !kind_at_set. Qed.

Lemma kind_at_overlay_heap_rules rs :
  kind_at h lr = Some (KArray rs) →
  kind_at (overlay_heap h lc lo lr ps) lr = Some (KArray (rs ++ [VRef (length h + 10)])).
Proof.
  intros Hk. rewrite kind_at_overlay_heap by (by eapply kind_at_Some).
  by apply kind_at_mutated_rules.
Qed.
End final_store.

(** ** The script keeps the store closed and the configuration well shaped *)

Lemma value_in_mono n m v : (n ≤ m)%nat → value_in n v → value_in m v.
Proof. destruct v; simpl; lia. Qed.

Lemma object_in_mono n m o : (n ≤ m)%nat → object_in n o → object_in m o.
Proof.
  intros Hnm [Hk Hp]. split.
  - destruct (kind_of o); simpl in *; try done;
      eapply Forall_impl; eauto using value_in_mono.
  - eapply map_Forall_impl; eauto using value_in_mono.
Qed.

Lemma object_in_set_field n k x o :
  value_in n x → object_in n o → object_in n (set_field k x o).
Proof. intros Hx [Hk Hp]. split; [done|]. by apply map_Forall_insert_2. Qed.

Lemma object_in_push_elem n x o :
  value_in n x → object_in n o → object_in n (push_elem x o).
Proof.
  intros Hx [Hk Hp]. unfold push_elem.
  destruct (kind_of o) eqn:E; try (by split; [rewrite E|]).
  split; [simpl|done]. apply Forall_app. split; [done|]. by constructor.
Qed.

Lemma object_in_array n es : Forall (value_in n) es → object_in n (array es).
Proof. intros. split; [done|]. apply map_Forall_empty. Qed.

Lemma object_in_instance n c args :
  Forall (value_in n) args → object_in n (instance c args).
Proof. intros. split; [done|]. apply map_Forall_empty. Qed.

Lemma object_in_regexp n r : object_in n (regexp r).
Proof. split; [done|]. apply map_Forall_empty. Qed.

Lemma overlay_heap_closed h lc lo lp lm lr ps rs :
  keeps_closed pk →
  heap_closed h → base_config h lc lo lp lm lr ps rs →
  heap_closed (overlay_heap h lc lo lr ps).
Proof.
  intros Hpk Hc Hb. unfold heap_closed. rewrite length_overlay_heap.
  set (n := length h). unfold overlay_heap. apply Forall_app. split.
  - unfold mutated. fold n.
    assert (Forall (object_in (n + 11)) h) as H0.
    { eapply Forall_impl; [exact Hc|]. intros o. apply object_in_mono. lia. }
    repeat (apply Forall_alter;
            [|intros o _; first [apply object_in_set_field | apply object_in_push_elem];
              simpl; lia]).
    done.
  - fold n. unfold fresh, rule_object.
    assert (Forall (value_in (n + 11)) ps) as Hps.
    { destruct Hb as [_ _ [Hk _] _ _ _].
      eapply Forall_impl; [by eapply heap_closed_elems|].
      intros v. apply value_in_mono. lia. }
    assert (∀ es, Forall (value_in (n + 11)) es →
              Forall (value_in (n + 11))
                (es ++ [VRef (n + 1); VRef (n + 2); VRef (n + 4)])) as Hadd.
    { intros es Hes. apply Forall_app. split; [done|].
      repeat (apply List.Forall_cons; [simpl; lia|]). apply List.Forall_nil. }
    repeat (apply List.Forall_cons;
            [first [ apply object_in_regexp
                   | apply object_in_array; first [by apply Hadd | vals]
                   | apply object_in_instance; vals
                   | split; [done|] ]|]);
      [..|apply List.Forall_nil];
      simpl; try apply Hpk;
      repeat apply map_Forall_insert_2; simpl; try lia; try done;
      apply map_Forall_empty.
Qed.

Lemma overlay_heap_base_config_in h lc lo lp lm lr ps rs :
  lm < length h → base_config h lc lo lp lm lr ps rs →
  base_config (overlay_heap h lc lo lr ps) lc lo (length h + 6) lm lr
    (ps ++ [VRef (length h + 1); VRef (length h + 2); VRef (length h + 4)])
    (rs ++ [VRef (length h + 10)]).
Proof.
  intros Hlm [Ho Hp Hps Hm Hr (Hrk & Hrc & Hrp & Hrs)].
  pose proof (field_Some _ _ _ _ Ho) as Hlc.
  pose proof (kind_at_Some _ _ _ Hrk) as Hlr.
  split.
  - by rewrite field_overlay_heap_key by set_solver.
  - by apply field_overlay_heap_plugins.
  - unfold is_sequence, kind_at, field. by rewrite overlay_heap_new.
  - by rewrite field_overlay_heap_key by set_solver.
  - by rewrite field_overlay_heap_key by set_solver.
  - split; [by apply kind_at_overlay_heap_rules|].
    by rewrite !field_overlay_heap_key by (done || set_solver).
Qed.

Lemma overlay_heap_base_config h lc lo lp lm lr ps rs :
  heap_closed h → base_config h lc lo lp lm lr ps rs →
  base_config (overlay_heap h lc lo lr ps) lc lo (length h + 6) lm lr
    (ps ++ [VRef (length h + 1); VRef (length h + 2); VRef (length h + 4)])
    (rs ++ [VRef (length h + 10)]).
Proof.
  intros Hc Hb. eapply overlay_heap_base_config_in; [|done].
  eapply heap_closed_field; [done|]. by destruct Hb.
Qed.

Lemma sample_closed : heap_closed sample_heap.
Proof. apply (bool_decide_unpack _). vm_compute. reflexivity. Qed.

Lemma sample_base_config : base_config sample_heap 0 1 2 4 5 [VRef 3] [VRef 8].
Proof. by split; vm_compute. Qed.

(** ** The two regular expressions of the rule *)

Section regex.
Implicit Types (r : regex) (s t w : list ascii).

Lemma rmatch_char a s t : t ∈ rmatch (RChar a) s ↔ s = a :: t.
Proof.
  simpl. destruct s as [|b s]; [rewrite elem_of_nil; naive_solver|].
  destruct (Ascii.eqb_spec a b) as [->|Hne].
  - rewrite list_elem_of_singleton. naive_solver.
  - rewrite elem_of_nil. naive_solver.
Qed.

Lemma rmatch_seq r1 r2 s t :
  t ∈ rmatch (RSeq r1 r2) s ↔ ∃ u, u ∈ rmatch r1 s ∧ t ∈ rmatch r2 u.
Proof. simpl. rewrite list_elem_of_bind. naive_solver. Qed.

Lemma rmatch_opt r s t : t ∈ rmatch (ROpt r) s ↔ t ∈ rmatch r s ∨ t = s.
Proof. simpl. by rewrite elem_of_app, list_elem_of_singleton. Qed.

Lemma rmatch_end s t : t ∈ rmatch REnd s ↔ s = [] ∧ t = [].
Proof.
  simpl. destruct s.
  - rewrite list_elem_of_singleton. naive_solver.
  - rewrite elem_of_nil. naive_solver.
Qed.

Lemma rmatch_literal w s t : t ∈ rmatch (literal w) s ↔ s = w ++ t.
Proof.
  revert s. induction w as [|a w IH]; intros s.
  - simpl. rewrite list_elem_of_singleton. naive_solver.
  - cbn [literal]. rewrite rmatch_seq. setoid_rewrite rmatch_char.
    setoid_rewrite IH. naive_solver.
Qed.

Lemma rmatch_jsx s t :
  t ∈ rmatch jsx_re s ↔
  t = [] ∧ (s = ["."; "j"; "s"]%char ∨ s = ["."; "j"; "s"; "x"]%char).
Proof.
  unfold jsx_re. repeat setoid_rewrite rmatch_seq.
  setoid_rewrite rmatch_end. setoid_rewrite rmatch_opt.
  repeat setoid_rewrite rmatch_char. naive_solver.
Qed.

Lemma matches_here_elem r s : matches_here r s = true ↔ ∃ t, t ∈ rmatch r s.
Proof.
  unfold matches_here. destruct (rmatch r s) as [|t ts].
  - setoid_rewrite elem_of_nil. naive_solver.
  - split; [|done]. intros _. exists t. apply elem_of_cons. by left.
Qed.

Lemma search_spec r s :
  search r s = true ↔ ∃ p w, s = p ++ w ∧ matches_here r w = true.
Proof.
  induction s as [|a s IH]; simpl.
  - rewrite orb_false_r. split.
    + intros H. by exists [], [].
    + intros (p & w & E & H). symmetry in E.
      apply app_eq_nil in E as [_ ->]. done.
  - rewrite orb_true_iff, IH. split.
    + intros [H|(p & w & -> & H)].
      * by exists [], (a :: s).
      * by exists (a :: p), w.
    + intros ([|b p] & w & E & H); simpl in E.
      * left. by rewrite E.
      * right. injection E as -> ->. by exists p, w.
Qed.
End regex.

Lemma to_list_app (p q : string) :
  String.list_ascii_of_string (p +:+ q)
  = String.list_ascii_of_string p ++ String.list_ascii_of_string q.
Proof. induction p as [|a p IH]; simpl; [done|]. by rewrite IH. Qed.

Lemma of_list_app (p q : list ascii) :
  String.string_of_list_ascii (p ++ q)
  = String.string_of_list_ascii p +:+ String.string_of_list_ascii q.
Proof. induction p as [|a p IH]; simpl; [done|]. by rewrite IH. Qed.

Lemma to_list_inj (s t : string) :
  String.list_ascii_of_string s = String.list_ascii_of_string t → s = t.
Proof.
  intros E. rewrite <- (String.string_of_list_ascii_of_string s).
  rewrite <- (String.string_of_list_ascii_of_string t). by rewrite E.
Qed.

(** [/\.jsx?$/] accepts exactly the names that end in [.js] or in [.jsx]. *)
Lemma jsx_re_spec (path : string) :
  regex_test jsx_re path = true ↔ ends_with path ".js" ∨ ends_with path ".jsx".
Proof.
  unfold regex_test, ends_with. rewrite search_spec.
  setoid_rewrite matches_here_elem. setoid_rewrite rmatch_jsx. split.
  - intros (p & w & E & t & _ & [-> | ->]); [left|right];
      exists (String.string_of_list_ascii p); apply to_list_inj;
      by rewrite to_list_app, String.list_ascii_of_string_of_list_ascii.
  - intros [[p ->] | [p ->]]; rewrite to_list_app;
      eexists _, _; (split; [done|]); exists []; eauto.
Qed.

(** [/node_modules/] accepts exactly the paths in which [node_modules]
    occurs. *)
Lemma node_modules_re_spec (path : string) :
  regex_test node_modules_re path = true ↔ contains path "node_modules".
Proof.
  unfold regex_test, contains, node_modules_re. rewrite search_spec.
  setoid_rewrite matches_here_elem. setoid_rewrite rmatch_literal. split.
  - intros (p & w & E & t & ->).
    exists (String.string_of_list_ascii p), (String.string_of_list_ascii t).
    apply to_list_inj.
    by rewrite !to_list_app, !String.list_ascii_of_string_of_list_ascii.
  - intros (p & q & ->). rewrite !to_list_app. eauto.
Qed.

(** ** The program logic *)

Section logic.
Context {A B : Type}.

Lemma triple_bind (P : heap → Prop) (m : JS A) (Q : A → heap → Prop)
    (f : A → JS B) (R : B → heap → Prop) (E : js_error → Prop) :
  triple P m Q E → (∀ a, triple (Q a) (f a) R E) → triple P (bind m f) R E.
Proof.
  intros Hm Hf h HP. unfold bind. specialize (Hm h HP).
  destruct (m h) as [a h'|e h']; [|done]. by apply Hf.
Qed.

Lemma triple_consequence (P P' : heap → Prop) (m : JS A)
    (Q Q' : A → heap → Prop) (E E' : js_error → Prop) :
  triple P' m Q' E' →
  (∀ h, P h → P' h) → (∀ a h, Q' a h → Q a h) → (∀ e, E' e → E e) →
  triple P m Q E.
Proof.
  intros Hm HP HQ HE h Hh. specialize (Hm h (HP h Hh)).
  destruct (m h); eauto.
Qed.

Lemma triple_pure (φ : Prop) (P : heap → Prop) (m : JS A)
    (Q : A → heap → Prop) (E : js_error → Prop) :
  (φ → triple P m Q E) → triple (λ h, P h ∧ φ) m Q E.
Proof. intros Hm h [HP Hφ]. by apply Hm. Qed.

Lemma triple_ret (P : heap → Prop) (a : A) (E : js_error → Prop) :
  triple P (ret a) (λ a' h, a' = a ∧ P h) E.
Proof. by intros h HP. Qed.

Lemma triple_errors (P : heap → Prop) (m : JS A) (Q : A → heap → Prop) :
  triple P m Q access_error → triple P m Q type_error.
Proof.
  intros Hm. eapply triple_consequence; [exact Hm|done..|].
  by intros [].
Qed.
End logic.

(** The rules for the operations on the store, for stores that extend a
    closed store [h0] and agree with it outside the keys [ks]. *)
Section rules.
Variable h0 : heap.
Hypothesis closed : heap_closed h0.
Implicit Types (ks : list string) (v x : value) (k : string).

Lemma unchanged_refl : unchanged [] h0 h0.
Proof. by split. Qed.

Lemma unchanged_weaken ks ks' h : ks ⊆ ks' → unchanged ks h0 h → unchanged ks' h0 h.
Proof. intros Hks [Hl Hf]. split; [done|]. intros l k ? Hk. apply Hf; [done|]. set_solver. Qed.

Lemma read_in v k : value_in (length h0) v → value_in (length h0) (read h0 v k).
Proof.
  destruct v as [| | | | |l]; try done. simpl. intros Hl.
  destruct (field h0 l k) as [[| | | | |l']|] eqn:E; try done.
  simpl. by eapply heap_closed_field.
Qed.

Lemma triple_alloc ks o :
  triple (unchanged ks h0) (alloc o) (λ _, unchanged ks h0) access_error.
Proof.
  intros h [Hl Hf]. simpl. split; [len|].
  intros l k ? ?. rewrite field_app_l by lia. by apply Hf.
Qed.

Lemma triple_alloc_fresh ks o :
  triple (unchanged ks h0) (alloc o)
    (λ v h, unchanged ks h0 h ∧ ∀ l, v = VRef l → (length h0 ≤ l)%nat) access_error.
Proof.
  intros h Hu. split; [by apply (triple_alloc ks o h)|].
  intros l [= <-]. by destruct Hu.
Qed.

(** A constructor that is given new objects only leaves the old ones alone. *)
Lemma triple_construct ks c args :
  Forall (λ v, ∀ l, v = VRef l → (length h0 ≤ l)%nat) args →
  triple (unchanged ks h0) (construct c args) (λ _, unchanged ks h0) access_error.
Proof.
  intros Hargs h Hu. unfold construct. apply triple_alloc.
  induction Hargs as [|v args Hv _ IH]; [done|]. simpl.
  destruct v as [| | | | |l]; try done. simpl.
  destruct IH as [Hl Hf]. split; [len|].
  intros l' k ? ?. rewrite field_alter_ne; [by apply Hf|].
  specialize (Hv l eq_refl). lia.
Qed.

Lemma triple_set_prop ks v k x :
  value_in (length h0) v →
  triple (unchanged ks h0) (set_prop v k x) (λ _, unchanged (k :: ks) h0) access_error.
Proof.
  intros Hv h Hu.
  assert (unchanged (k :: ks) h0 h) as Hu' by (eapply unchanged_weaken; [|done]; set_solver).
  destruct v as [| | | | |l]; try done; try (by left); try (by right).
  simpl in Hv. simpl. destruct Hu' as [Hl Hf].
  destruct (lookup_lt_is_Some_2 h l) as [o ->]; [lia|].
  split; [len|]. intros l' k' ? Hk'.
  rewrite field_set_ne by set_solver. by apply Hf.
Qed.

Lemma triple_get_prop ks v k :
  value_in (length h0) v → k ∉ ks →
  triple (unchanged ks h0) (get_prop v k)
    (λ v' h, unchanged ks h0 h ∧ v' = read h0 v k) access_error.
Proof.
  intros Hv Hk h [Hl Hf].
  destruct v as [| | | | |l]; try done; try (by left); try (by right).
  simpl in Hv. simpl.
  destruct (h !! l) as [o|] eqn:Eo.
  - split; [done|]. rewrite <- Hf by done. unfold field. by rewrite Eo.
  - apply lookup_ge_None in Eo. lia.
Qed.

Lemma triple_get_method ks v k :
  value_in (length h0) v →
  triple (unchanged ks h0) (get_method v k) (λ _, unchanged ks h0) access_error.
Proof.
  intros Hv h [Hl Hf].
  destruct v as [| | | | |l]; try done; try (by left); try (by right).
  simpl in Hv. simpl.
  destruct (h !! l) as [o|] eqn:Eo.
  - by destruct (props o !! k).
  - apply lookup_ge_None in Eo. lia.
Qed.

Lemma triple_call ks f k this arg :
  value_in (length h0) this →
  triple (unchanged ks h0) (call f k this arg) (λ _, unchanged ks h0) type_error.
Proof.
  intros Hv h [Hl Hf]. destruct f as [[| |]|]; simpl; try done.
  - destruct (species_of h this); [done|]. simpl.
    split; [len|]. intros l k' ? ?. rewrite field_app_l by lia. by apply Hf.
  - destruct this as [| | | | |l]; try done. simpl in Hv.
    destruct (h !! l) as [o|] eqn:Eo.
    + destruct (kind_of o); try done. split; [len|].
      intros l' k' ? ?. rewrite field_push. by apply Hf.
    + apply lookup_ge_None in Eo. lia.
Qed.

(** A read from [undefined] or [null] throws, whatever the store. *)
Lemma triple_get_prop_nullish (P : heap → Prop) v k (Q : value → heap → Prop) :
  nullish v → triple P (get_prop v k) Q access_error.
Proof. by intros [-> | ->] h _; [left|right]. Qed.

Lemma triple_get_method_nullish (P : heap → Prop) v k (Q : option builtin → heap → Prop) :
  nullish v → triple P (get_method v k) Q access_error.
Proof. by intros [-> | ->] h _; [left|right]. Qed.

(** The statements of the script, for the configuration object at [lc]. *)
Variable lc : loc.
Hypothesis config_in : lc < length h0.

Lemma triple_set_entry ks :
  triple (unchanged ks h0) (set_entry (VRef lc))
    (λ _, unchanged ("entry" :: ks) h0) access_error.
Proof.
  unfold set_entry. eapply triple_bind; [apply triple_alloc|].
  intros entry. by apply triple_set_prop.
Qed.

Lemma triple_set_public_path ks :
  "output" ∉ ks →
  triple (unchanged ks h0) (set_public_path (VRef lc))
    (λ _, unchanged ("publicPath" :: ks) h0) access_error.
Proof.
  intros Hk. unfold set_public_path.
  eapply triple_bind; [by apply triple_get_prop|].
  intros output. apply triple_pure. intros ->.
  apply triple_set_prop. by apply read_in.
Qed.

Lemma triple_extend_plugins ks :
  "plugins" ∉ ks →
  triple (unchanged ks h0) (extend_plugins (VRef lc))
    (λ _, unchanged ("plugins" :: ks) h0) type_error.
Proof.
  intros Hk. unfold extend_plugins.
  eapply triple_bind; [by apply triple_errors, triple_get_prop|].
  intros plugins. apply triple_pure. intros ->.
  eapply triple_bind; [by apply triple_errors, triple_get_method, read_in|].
  intros concat.
  do 2 (eapply triple_bind;
        [apply triple_errors, triple_construct; constructor|]; intros ?).
  eapply triple_bind; [apply triple_errors, triple_alloc_fresh|]. intros options.
  apply triple_pure. intros Hoptions.
  eapply triple_bind; [apply triple_errors, triple_construct; by repeat constructor|].
  intros tracker.
  eapply triple_bind; [apply triple_errors, triple_alloc|]. intros added.
  eapply triple_bind; [by apply triple_call, read_in|]. intros extended.
  by apply triple_errors, triple_set_prop.
Qed.

Lemma triple_set_devtool ks :
  triple (unchanged ks h0) (set_devtool (VRef lc))
    (λ _, unchanged ("devtool" :: ks) h0) access_error.
Proof. by apply triple_set_prop. Qed.

(** Without [plugins] the third statement throws. *)
Lemma triple_extend_plugins_missing ks (Q : unit → heap → Prop) :
  "plugins" ∉ ks → lacks h0 lc "plugins" →
  triple (unchanged ks h0) (extend_plugins (VRef lc)) Q access_error.
Proof.
  intros Hk [_ Hp]. unfold extend_plugins.
  eapply triple_bind; [by apply triple_get_prop|].
  intros plugins. apply triple_pure. intros ->.
  eapply (triple_bind _ _ (λ _ _, False)); [|by intros ? ? ?].
  apply triple_get_method_nullish. left. simpl. by rewrite Hp.
Qed.

(** Without [module.rules] the last statement throws. *)
Lemma triple_push_rule_missing ks (Q : value → heap → Prop) :
  "module" ∉ ks → "rules" ∉ ks → missing_rules h0 lc →
  triple (unchanged ks h0) (push_rule (VRef lc)) Q access_error.
Proof.
  intros Hm Hr Hmiss. unfold push_rule.
  eapply triple_bind; [by apply triple_get_prop|].
  intros module. apply triple_pure. intros ->.
  destruct Hmiss as [[_ Hmod] | (lm & Hmod & _ & Hrules)].
  - assert (read h0 (VRef lc) "module" = VUndefined) as -> by (simpl; by rewrite Hmod).
    eapply (triple_bind _ _ (λ _ _, False)); [|by intros ? ? ?].
    apply triple_get_prop_nullish. by left.
  - assert (read h0 (VRef lc) "module" = VRef lm) as -> by (simpl; by rewrite Hmod).
    eapply triple_bind;
      [apply triple_get_prop; [by eapply heap_closed_field|done]|].
    intros rules. apply triple_pure. intros ->.
    eapply (triple_bind _ _ (λ _ _, False)); [|by intros ? ? ?].
    apply triple_get_method_nullish. left. simpl. by rewrite Hrules.
Qed.
End rules.

Lemma triple_throws {A} (P : heap → Prop) (m : JS A) (E : js_error → Prop) h :
  triple P m (λ _ _, False) E → P h → ∃ e h', m h = Throw e h' ∧ E e.
Proof.
  intros Hm HP. specialize (Hm h HP).
  destruct (m h) as [a h'|e h']; [done|]. by exists e, h'.
Qed.

Lemma missing_rules_config h lc : missing_rules h lc → lc < length h.
Proof. intros [[? _] | (lm & Hm & _)]; [done|]. by eapply field_Some. Qed.

Lemma overlay_throws_without_plugins h lc :
  heap_closed h → lacks h lc "plugins" →
  triple (unchanged [] h) (overlay (VRef lc)) (λ _ _, False) access_error.
Proof.
  intros Hc Hp. pose proof Hp as [Hlc _]. unfold overlay.
  eapply triple_bind; [by apply triple_set_entry|]. intros [].
  eapply triple_bind; [apply triple_set_public_path; [done..|set_solver]|]. intros [].
  eapply (triple_bind _ _ (λ _ _, False)); [|by intros ? ? ?].
  apply triple_extend_plugins_missing; [done..|set_solver|done].
Qed.

Lemma overlay_throws_without_rules h lc :
  heap_closed h → missing_rules h lc →
  triple (unchanged [] h) (overlay (VRef lc)) (λ _ _, False) type_error.
Proof.
  intros Hc Hr. pose proof (missing_rules_config _ _ Hr) as Hlc. unfold overlay.
  eapply triple_bind; [by apply triple_errors, triple_set_entry|]. intros [].
  eapply triple_bind;
    [apply triple_errors, triple_set_public_path; [done..|set_solver]|]. intros [].
  eapply triple_bind; [apply triple_extend_plugins; [done..|set_solver]|]. intros [].
  eapply triple_bind; [by apply triple_errors, triple_set_devtool|]. intros [].
  eapply (triple_bind _ _ (λ _ _, False)); [|by intros ? ? ?].
  apply triple_errors, triple_push_rule_missing; [done..|set_solver|set_solver|done].
Qed.

(** The error when [output] is missing: the second statement assigns a
    property of [undefined]. *)
Lemma overlay_without_output h lc :
  lacks h lc "output" →
  ∃ h', overlay (VRef lc) h = Throw (CannotSetProperty "publicPath" VUndefined) h'.
Proof.
  intros [Hlc Ho]. eexists. unfold overlay, set_entry, set_public_path.
  rewrite !bind_assoc.
  rewrite (bind_alloc (length h)) by done.
  rewrite bind_set_prop by len.
  rewrite !bind_assoc.
  rewrite bind_get_prop by len. observe. rewrite Ho. reflexivity.
Qed.

(** The error when only [plugins] is missing: [concat] is read from
    [undefined]. *)
Lemma overlay_without_plugins h lc lo :
  heap_closed h → field h lc "output" = Some (VRef lo) → lacks h lc "plugins" →
  ∃ h', overlay (VRef lc) h = Throw (CannotReadProperty "concat" VUndefined) h'.
Proof.
  intros Hc Ho [Hlc Hp]. eexists.
  pose proof (heap_closed_field _ _ _ _ Hc Ho) as Hlo.
  unfold overlay, set_entry, set_public_path, extend_plugins.
  rewrite !bind_assoc.
  rewrite (bind_alloc (length h)) by done.
  rewrite bind_set_prop by len.
  rewrite !bind_assoc.
  rewrite (bind_get_prop_Some _ _ (VRef lo)) by (by observe).
  rewrite bind_set_prop by len.
  rewrite !bind_assoc.
  rewrite bind_get_prop by len. observe. rewrite Hp. reflexivity.
Qed.

(** The error when only [module.rules] is missing: [rules] is read from
    [undefined], or [push] is. *)
Lemma overlay_without_rules h lc lo lp ps :
  heap_closed h →
  field h lc "output" = Some (VRef lo) →
  field h lc "plugins" = Some (VRef lp) →
  is_sequence h lp ps →
  missing_rules h lc →
  ∃ k h', k ∈ ["rules"; "push"] ∧
          overlay (VRef lc) h = Throw (CannotReadProperty k VUndefined) h'.
Proof.
  intros Hc Ho Hp Hps Hmiss.
  pose proof (field_Some _ _ _ _ Ho) as Hlc.
  pose proof (heap_closed_field _ _ _ _ Hc Ho) as Hlo.
  unfold overlay. rewrite (prefix_run _ h lc lo lp ps) by done.
  unfold push_rule. rewrite !bind_assoc.
  destruct Hmiss as [[_ Hmod] | (lm & Hmod & Hlm & Hrules)].
  - exists "rules". eexists. split; [set_solver|].
    rewrite bind_get_prop by (rewrite length_before_push; lia).
    rewrite field_before_push by (done || set_solver). rewrite Hmod. reflexivity.
  - exists "push". eexists. split; [set_solver|].
    rewrite (bind_get_prop_Some _ _ (VRef lm))
      by (by rewrite field_before_push by (done || set_solver)).
    rewrite !bind_assoc.
    rewrite bind_get_prop by (rewrite length_before_push; lia).
    rewrite field_before_push by (done || set_solver). rewrite Hrules. reflexivity.
Qed.

Lemma sample_without_output_closed : heap_closed sample_without_output.
Proof. apply (bool_decide_unpack _). vm_compute. reflexivity. Qed.

Lemma sample_without_plugins_closed : heap_closed sample_without_plugins.
Proof. apply (bool_decide_unpack _). vm_compute. reflexivity. Qed.

Lemma sample_without_rules_closed : heap_closed sample_without_rules.
Proof. apply (bool_decide_unpack _). vm_compute. reflexivity. Qed.

(** ** The script does not depend on addresses *)

Section renaming.
Variable ρ : loc → loc.
Hypothesis ρ_inj : Inj (=) (=) ρ.
Hypothesis blind : address_blind pk.

Lemma similar_lookup h1 h2 l o :
  similar ρ h1 h2 → h1 !! l = Some o → h2 !! ρ l = Some (rename_object ρ o).
Proof. intros [Hs _] E. by rewrite Hs, E. Qed.

Lemma similar_lookup_None h1 h2 l :
  similar ρ h1 h2 → h1 !! l = None → h2 !! ρ l = None.
Proof. intros [Hs _] E. by rewrite Hs, E. Qed.

Lemma similar_alloc h1 h2 o :
  similar ρ h1 h2 → similar ρ (h1 ++ [o]) (h2 ++ [rename_object ρ o]).
Proof.
  intros [Hs Ha]. split.
  - intros l. destruct (decide (l < length h1)) as [Hl|Hl].
    + rewrite (lookup_app_l h1) by done.
      destruct (lookup_lt_is_Some_2 h1 l Hl) as [o' Ho'].
      pose proof (Hs l) as Hsl. rewrite Ho' in Hsl.
      rewrite lookup_app_l by (by eapply lookup_lt_Some). done.
    + replace l with (length h1 + (l - length h1)) by lia.
      rewrite Ha. destruct (l - length h1) as [|i].
      * rewrite !Nat.add_0_r. by rewrite !list_lookup_middle.
      * rewrite !lookup_ge_None_2; [done|len..].
  - intros i. rewrite !length_app. simpl.
    rewrite <- !Nat.add_assoc. apply Ha.
Qed.

Lemma similar_alter h1 h2 l (f f' : object → object) :
  (∀ o, f' (rename_object ρ o) = rename_object ρ (f o)) →
  similar ρ h1 h2 → similar ρ (alter f l h1) (alter f' (ρ l) h2).
Proof.
  intros Hf [Hs Ha]. split.
  - intros l'. destruct (decide (l = l')) as [<-|Hne].
    + rewrite !list_lookup_alter_eq, Hs. destruct (h1 !! l); simpl; [|done].
      by rewrite Hf.
    + rewrite !list_lookup_alter_ne; [apply Hs|done|].
      intros E. by apply ρ_inj in E.
  - intros i. rewrite !length_alter. apply Ha.
Qed.

Lemma rename_set_field k x o :
  set_field k (rename_value ρ x) (rename_object ρ o) = rename_object ρ (set_field k x o).
Proof. unfold set_field, rename_object. simpl. by rewrite fmap_insert. Qed.

Lemma rename_push_elem x o :
  push_elem (rename_value ρ x) (rename_object ρ o) = rename_object ρ (push_elem x o).
Proof.
  destruct o as [[|es| |] ps]; try done.
  unfold push_elem, rename_object. cbn [rename_kind kind_of props].
  by rewrite fmap_app.
Qed.

Lemma similar_kind h1 h2 l :
  similar ρ h1 h2 → kind_of <$> h2 !! ρ l = rename_kind ρ <$> (kind_of <$> h1 !! l).
Proof. intros [Hs _]. rewrite Hs. by destruct (h1 !! l). Qed.

Lemma similar_display fuel h1 h2 v :
  similar ρ h1 h2 → display fuel h2 (rename_value ρ v) = display fuel h1 v.
Proof.
  intros Hs. revert v. induction fuel as [|fuel IH]; intros v.
  - destruct v as [| | | | |l]; simpl; try done.
    rewrite (similar_kind h1 h2) by done.
    by destruct (h1 !! l) as [[[] ?]|].
  - destruct v as [| | | | |l]; try done.
    cbn [display rename_value]. rewrite (similar_kind h1 h2) by done.
    destruct (h1 !! l) as [[[|es| |] ?]|]; simpl; try done.
    f_equal. rewrite <- list_fmap_compose. apply list_fmap_ext.
    intros i e _.
    destruct e as [| |b|n|s|l']; simpl;
      [done|done|apply (IH (VBool b))|apply (IH (VNum n))
      |apply (IH (VStr s))|apply (IH (VRef l'))].
Qed.

Lemma similar_spread h1 h2 v :
  similar ρ h1 h2 → spread h2 (rename_value ρ v) = rename_value ρ <$> spread h1 v.
Proof.
  intros Hs. destruct v as [| | | | |l]; try done.
  unfold spread. cbn [rename_value]. rewrite (similar_kind h1 h2) by done.
  by destruct (h1 !! l) as [[[] ?]|].
Qed.

Lemma species_fault_prim o v : species_fault o = Some v → rename_value ρ v = v.
Proof.
  unfold species_fault. destruct (kind_of o); try done.
  destruct (props o !! "constructor") as [[]|]; try done; by intros [= <-].
Qed.

Lemma rename_species_fault o : species_fault (rename_object ρ o) = species_fault o.
Proof.
  unfold species_fault, rename_object. cbn [kind_of props].
  rewrite lookup_fmap.
  destruct (kind_of o); try done.
  by destruct (props o !! "constructor") as [[]|].
Qed.

Lemma similar_species h1 h2 v :
  similar ρ h1 h2 → species_of h2 (rename_value ρ v) = species_of h1 v.
Proof.
  intros [Hs _]. destruct v as [| | | | |l]; try done.
  unfold species_of. cbn [rename_value]. rewrite Hs.
  destruct (h1 !! l) as [o|]; [simpl|done]. apply rename_species_fault.
Qed.

Lemma species_of_prim h v x : species_of h v = Some x → rename_value ρ x = x.
Proof.
  destruct v as [| | | | |l]; try done. unfold species_of.
  destruct (h !! l) as [o|]; [simpl|done]. apply species_fault_prim.
Qed.

Lemma rename_configured c o :
  configured c (rename_object ρ o) = rename_object ρ (configured c o).
Proof.
  unfold configured, rename_object. cbn [kind_of props]. f_equal. by apply blind.
Qed.

Lemma similar_hand_over c args h1 h2 :
  similar ρ h1 h2 →
  similar ρ (foldr (hand_over c) h1 args)
    (foldr (hand_over c) h2 (rename_value ρ <$> args)).
Proof.
  intros Hs. induction args as [|v args IH]; [done|].
  cbn [foldr fmap list_fmap]. destruct v as [| | | | |l]; try done.
  cbn [hand_over rename_value]. apply similar_alter; [|done].
  apply rename_configured.
Qed.

Lemma rename_array es : rename_object ρ (array es) = array (rename_value ρ <$> es).
Proof. unfold rename_object, array. simpl. by rewrite fmap_empty. Qed.

Lemma rename_instance c args :
  rename_object ρ (instance c args) = instance c (rename_value ρ <$> args).
Proof. unfold rename_object, instance. simpl. by rewrite fmap_empty. Qed.

Lemma rename_regexp r : rename_object ρ (regexp r) = regexp r.
Proof. unfold rename_object, regexp. simpl. by rewrite fmap_empty. Qed.

Lemma rename_plain m : rename_object ρ (plain m) = plain (rename_value ρ <$> m).
Proof. done. Qed.

Lemma corresponds_bind {A B} (R : A → A → Prop) (R' : B → B → Prop)
    (m1 m2 : JS A) (f1 f2 : A → JS B) :
  corresponds ρ R m1 m2 →
  (∀ a1 a2, R a1 a2 → corresponds ρ R' (f1 a1) (f2 a2)) →
  corresponds ρ R' (bind m1 f1) (bind m2 f2).
Proof.
  intros Hm Hf h1 h2 Hs. unfold bind. specialize (Hm h1 h2 Hs).
  destruct (m1 h1) as [a1 h1'|e1 h1'], (m2 h2) as [a2 h2'|e2 h2']; try done.
  destruct Hm as [Ha Hs']. by apply Hf.
Qed.

Lemma corresponds_ret {A} (R : A → A → Prop) a1 a2 :
  R a1 a2 → corresponds ρ R (ret a1) (ret a2).
Proof. by intros Ha h1 h2 Hs. Qed.

Lemma corresponds_alloc o1 o2 :
  o2 = rename_object ρ o1 → corresponds ρ (renamed ρ) (alloc o1) (alloc o2).
Proof.
  intros -> h1 h2 Hs. split; [|by apply similar_alloc].
  destruct Hs as [_ Ha]. specialize (Ha 0). rewrite !Nat.add_0_r in Ha.
  unfold renamed. simpl. by rewrite Ha.
Qed.

Lemma corresponds_get_prop v k :
  corresponds ρ (renamed ρ) (get_prop v k) (get_prop (rename_value ρ v) k).
Proof.
  intros h1 h2 Hs. destruct v as [| | | | |l]; try done. simpl.
  destruct (h1 !! l) as [o|] eqn:Eo.
  - rewrite (similar_lookup _ _ _ _ Hs Eo). split; [|done].
    unfold renamed. simpl. rewrite lookup_fmap. by destruct (props o !! k).
  - by rewrite (similar_lookup_None _ _ _ Hs Eo).
Qed.

Lemma corresponds_set_prop v k x :
  corresponds ρ (λ _ _, True) (set_prop v k x)
    (set_prop (rename_value ρ v) k (rename_value ρ x)).
Proof.
  intros h1 h2 Hs. destruct v as [| | | | |l]; try done. simpl.
  destruct (h1 !! l) as [o|] eqn:Eo.
  - rewrite (similar_lookup _ _ _ _ Hs Eo). split; [done|].
    apply similar_alter; [|done]. intros o'. apply rename_set_field.
  - by rewrite (similar_lookup_None _ _ _ Hs Eo).
Qed.

Lemma corresponds_get_method v k :
  corresponds ρ eq (get_method v k) (get_method (rename_value ρ v) k).
Proof.
  intros h1 h2 Hs. destruct v as [| | | | |l]; try done. simpl.
  destruct (h1 !! l) as [o|] eqn:Eo.
  - rewrite (similar_lookup _ _ _ _ Hs Eo). simpl. rewrite lookup_fmap.
    destruct (props o !! k); simpl; [done|]. split; [|done].
    by destruct (kind_of o).
  - by rewrite (similar_lookup_None _ _ _ Hs Eo).
Qed.

Lemma corresponds_call f k this arg :
  corresponds ρ (renamed ρ) (call f k this arg)
    (call f k (rename_value ρ this) (rename_value ρ arg)).
Proof.
  intros h1 h2 Hs. destruct f as [[| |]|]; unfold call; try done.
  - rewrite (similar_species h1 h2) by done.
    destruct (species_of h1 this) as [x|] eqn:Ex.
    + split; [|done]. simpl. by rewrite (species_of_prim _ _ _ Ex).
    + apply corresponds_alloc; [|done].
      rewrite rename_array, fmap_app. by rewrite !(similar_spread h1 h2).
  - destruct this as [| | | | |l]; try done. cbn [rename_value].
    destruct (h1 !! l) as [o|] eqn:Eo.
    + rewrite (similar_lookup _ _ _ _ Hs Eo). simpl.
      destruct (kind_of o); simpl; try done.
      rewrite length_fmap. split; [done|].
      apply similar_alter; [|done]. intros o'. apply rename_push_elem.
    + by rewrite (similar_lookup_None _ _ _ Hs Eo).
  - split; [|done]. unfold renamed. cbn [rename_value].
    by rewrite !(similar_display _ h1 h2).
Qed.

Lemma corresponds_construct c args :
  corresponds ρ (renamed ρ) (construct c args) (construct c (rename_value ρ <$> args)).
Proof.
  intros h1 h2 Hs. unfold construct.
  apply corresponds_alloc; [by rewrite rename_instance|].
  by apply similar_hand_over.
Qed.

(** Statement by statement. *)
Lemma corresponds_set_entry c :
  corresponds ρ (λ _ _, True) (set_entry c) (set_entry (rename_value ρ c)).
Proof.
  unfold set_entry.
  eapply corresponds_bind; [apply corresponds_alloc; by rewrite rename_array|].
  intros entry ? ->. apply corresponds_set_prop.
Qed.

Lemma corresponds_set_public_path c :
  corresponds ρ (λ _ _, True) (set_public_path c) (set_public_path (rename_value ρ c)).
Proof.
  unfold set_public_path.
  eapply corresponds_bind; [apply corresponds_get_prop|].
  intros output ? ->. apply (corresponds_set_prop output _ (VStr _)).
Qed.

Lemma corresponds_extend_plugins c :
  corresponds ρ (λ _ _, True) (extend_plugins c) (extend_plugins (rename_value ρ c)).
Proof.
  unfold extend_plugins.
  eapply corresponds_bind; [apply corresponds_get_prop|]. intros plugins ? ->.
  eapply corresponds_bind; [apply corresponds_get_method|]. intros concat ? <-.
  eapply corresponds_bind; [apply (corresponds_construct _ [])|].
  intros hmr ? ->.
  eapply corresponds_bind; [apply (corresponds_construct _ [])|].
  intros noemit ? ->.
  eapply corresponds_bind;
    [apply corresponds_alloc; by rewrite rename_plain, map_fmap_singleton|].
  intros options ? ->.
  eapply corresponds_bind; [apply (corresponds_construct _ [options])|].
  intros tracker ? ->.
  eapply corresponds_bind; [apply corresponds_alloc; by rewrite rename_array|].
  intros added ? ->.
  eapply corresponds_bind; [apply corresponds_call|]. intros extended ? ->.
  apply corresponds_set_prop.
Qed.

Lemma corresponds_set_devtool c :
  corresponds ρ (λ _ _, True) (set_devtool c) (set_devtool (rename_value ρ c)).
Proof. apply (corresponds_set_prop c _ (VStr _)). Qed.

Lemma corresponds_push_rule c :
  corresponds ρ (renamed ρ) (push_rule c) (push_rule (rename_value ρ c)).
Proof.
  unfold push_rule.
  eapply corresponds_bind; [apply corresponds_get_prop|]. intros module ? ->.
  eapply corresponds_bind; [apply corresponds_get_prop|]. intros rules ? ->.
  eapply corresponds_bind; [apply corresponds_get_method|]. intros push ? <-.
  eapply corresponds_bind; [apply corresponds_alloc; by rewrite rename_regexp|].
  intros test ? ->.
  eapply corresponds_bind; [apply corresponds_alloc; by rewrite rename_regexp|].
  intros exclude ? ->.
  eapply corresponds_bind; [apply corresponds_alloc; by rewrite rename_array|].
  intros loaders ? ->.
  eapply corresponds_bind;
    [apply corresponds_alloc;
     by rewrite rename_plain, !fmap_insert, map_fmap_singleton|].
  intros rule ? ->. apply corresponds_call.
Qed.

Lemma corresponds_overlay c :
  corresponds ρ (renamed ρ) (overlay c) (overlay (rename_value ρ c)).
Proof.
  unfold overlay.
  eapply corresponds_bind; [apply corresponds_set_entry|]. intros _ _ _.
  eapply corresponds_bind; [apply corresponds_set_public_path|]. intros _ _ _.
  eapply corresponds_bind; [apply corresponds_extend_plugins|]. intros _ _ _.
  eapply corresponds_bind; [apply corresponds_set_devtool|]. intros _ _ _.
  eapply corresponds_bind; [apply corresponds_push_rule|]. intros _ _ _.
  by apply corresponds_ret.
Qed.
End renaming.

(** ** The calls into the packages *)

Lemma classes_app h h' : classes (h ++ h') = classes h ++ classes h'.
Proof. apply omap_app. Qed.

Lemma classes_alter (f : object → object) l h :
  (∀ o, class_of (f o) = class_of o) → classes (alter f l h) = classes h.
Proof.
  intros Hf. revert l. induction h as [|o h IH]; intros [|l]; try done.
  - unfold classes. simpl. by rewrite Hf.
  - specialize (IH l). unfold classes in *.
    change (alter f (S l) (o :: h)) with (o :: alter f l h).
    cbn [omap list_omap]. fold (omap class_of (alter f l h)) (omap class_of h).
    by rewrite IH.
Qed.

Lemma class_of_push_elem x o : class_of (push_elem x o) = class_of o.
Proof. unfold push_elem, class_of. by destruct (kind_of o) eqn:E; simpl; rewrite ?E. Qed.

Section builds.
Implicit Types (v x : value) (k : string).

Lemma builds_bind {A B} (m : JS A) (f : A → JS B) cs1 cs2 :
  builds m cs1 → (∀ a, builds (f a) cs2) → builds (bind m f) (cs1 ++ cs2).
Proof.
  intros Hm Hf h. unfold bind. specialize (Hm h).
  destruct (m h) as [a h1|e h1].
  - specialize (Hf a h1). destruct (f a h1) as [b h2|e h2].
    + by rewrite Hf, Hm, app_assoc.
    + destruct Hf as (pre & Hpre & ->). exists (cs1 ++ pre).
      split; [by apply prefix_app|]. by rewrite Hm, app_assoc.
  - destruct Hm as (pre & Hpre & ->). exists pre.
    split; [by apply prefix_app_r|done].
Qed.

Lemma builds_ret {A} (a : A) : builds (ret a) [].
Proof. intros h. simpl. by rewrite app_nil_r. Qed.

Lemma builds_alloc o : class_of o = None → builds (alloc o) [].
Proof.
  intros Ho h. simpl. rewrite classes_app. unfold classes at 2. simpl. by rewrite Ho.
Qed.

Lemma builds_construct c args : builds (construct c args) [c].
Proof.
  intros h. unfold construct, alloc. rewrite classes_app. f_equal.
  induction args as [|v args IH]; [done|]. simpl.
  destruct v as [| | | | |l]; try done. simpl. by rewrite classes_alter.
Qed.

Lemma builds_get_prop v k : builds (get_prop v k) [].
Proof.
  intros h. destruct v as [| | | | |l]; simpl;
    try (by rewrite app_nil_r); try (by exists []; rewrite app_nil_r).
  destruct (h !! l); [by rewrite app_nil_r|by exists []; rewrite app_nil_r].
Qed.

Lemma builds_get_method v k : builds (get_method v k) [].
Proof.
  intros h. destruct v as [| | | | |l]; simpl;
    try (by rewrite app_nil_r); try (by exists []; rewrite app_nil_r).
  destruct (h !! l) as [o|]; [|by exists []; rewrite app_nil_r].
  destruct (props o !! k); by rewrite app_nil_r.
Qed.

Lemma builds_set_prop v k x : builds (set_prop v k x) [].
Proof.
  intros h. destruct v as [| | | | |l]; simpl;
    try (by rewrite app_nil_r); try (by exists []; rewrite app_nil_r).
  destruct (h !! l); [|by exists []; rewrite app_nil_r].
  by rewrite classes_alter, app_nil_r.
Qed.

Lemma builds_call f k this arg : builds (call f k this arg) [].
Proof.
  intros h. destruct f as [[| |]|]; simpl.
  - destruct (species_of h this); [by exists []; rewrite app_nil_r|].
    simpl. rewrite classes_app. done.
  - destruct this as [| | | | |l]; simpl; try (by exists []; rewrite app_nil_r).
    destruct (h !! l) as [o|]; [|by exists []; rewrite app_nil_r].
    destruct (kind_of o); try (by exists []; rewrite app_nil_r).
    rewrite classes_alter, app_nil_r; [done|]. apply class_of_push_elem.
  - by rewrite app_nil_r.
  - by exists []; rewrite app_nil_r.
Qed.

Lemma builds_set_entry c : builds (set_entry c) [].
Proof.
  unfold set_entry. apply (builds_bind _ _ [] []); [by apply builds_alloc|].
  intros entry. apply builds_set_prop.
Qed.

Lemma builds_set_public_path c : builds (set_public_path c) [].
Proof.
  unfold set_public_path. apply (builds_bind _ _ [] []); [apply builds_get_prop|].
  intros output. apply builds_set_prop.
Qed.

Lemma builds_extend_plugins c :
  builds (extend_plugins c)
    ["HotModuleReplacementPlugin"; "NoEmitOnErrorsPlugin"; "BundleTracker"].
Proof.
  unfold extend_plugins.
  apply (builds_bind _ _ []); [apply builds_get_prop|]. intros plugins.
  apply (builds_bind _ _ []); [apply builds_get_method|]. intros concat.
  apply (builds_bind _ _ ["HotModuleReplacementPlugin"]); [apply builds_construct|].
  intros hmr.
  apply (builds_bind _ _ ["NoEmitOnErrorsPlugin"]); [apply builds_construct|].
  intros noemit.
  apply (builds_bind _ _ []); [by apply builds_alloc|]. intros options.
  apply (builds_bind _ _ ["BundleTracker"]); [apply builds_construct|].
  intros tracker.
  apply (builds_bind _ _ []); [by apply builds_alloc|]. intros added.
  apply (builds_bind _ _ [] []); [apply builds_call|]. intros extended.
  apply builds_set_prop.
Qed.

Lemma builds_push_rule c : builds (push_rule c) [].
Proof.
  unfold push_rule.
  apply (builds_bind _ _ [] []); [apply builds_get_prop|]. intros module.
  apply (builds_bind _ _ [] []); [apply builds_get_prop|]. intros rules.
  apply (builds_bind _ _ [] []); [apply builds_get_method|]. intros push.
  do 4 (apply (builds_bind _ _ [] []); [by apply builds_alloc|]; intros ?).
  apply builds_call.
Qed.

Lemma builds_overlay c :
  builds (overlay c)
    ["HotModuleReplacementPlugin"; "NoEmitOnErrorsPlugin"; "BundleTracker"].
Proof.
  unfold overlay.
  apply (builds_bind _ _ []); [apply builds_set_entry|]. intros _.
  apply (builds_bind _ _ []); [apply builds_set_public_path|]. intros _.
  apply (builds_bind _ _
           ["HotModuleReplacementPlugin"; "NoEmitOnErrorsPlugin"; "BundleTracker"] []);
    [apply builds_extend_plugins|]. intros _.
  apply (builds_bind _ _ [] []); [apply builds_set_prop|]. intros _.
  apply (builds_bind _ _ [] []); [apply builds_push_rule|]. intros _.
  apply builds_ret.
Qed.
End builds.

(** ** The modules that are read *)

Lemma script_reads (load : string → JS value) (w : process) :
  match script load w with
  | Done _ w' => reads w' = reads w ++ unread (cache w)
  | Failed _ w' => ∃ pre, pre `prefix_of` unread (cache w) ∧ reads w' = reads w ++ pre
  end.
Proof.
  destruct w as [c h rs].
  assert (∀ (l : list string), [] `prefix_of` l) as P0 by apply prefix_nil.
  assert (∀ (a : string) l l', l `prefix_of` l' → a :: l `prefix_of` a :: l') as P1
    by (intros; by apply prefix_cons).
  unfold script, and_then, require, run, unread, required. cbn [cache store reads].
  change (noted "path" rs) with rs.
  cbn [filter list_filter].
  destruct (c !! "path") as [v0|] eqn:E0;
    [|destruct (load "path" h) as [v0 h0|e h0]]; cbn [cache store reads];
    rewrite ?lookup_insert_ne by done;
    try (destruct (c !! "webpack") as [v1|] eqn:E1;
           [|destruct (load "webpack" _) as [v1 h1|e h1]]; cbn [cache store reads];
         rewrite ?lookup_insert_ne by done;
         try (destruct (c !! "webpack-bundle-tracker") as [v2|] eqn:E2;
                [|destruct (load "webpack-bundle-tracker" _) as [v2 h2|e h2]];
              cbn [cache store reads]; rewrite ?lookup_insert_ne by done;
              try (destruct (c !! "./webpack.base.config.js") as [v3|] eqn:E3;
                     [|destruct (load "./webpack.base.config.js" _) as [v3 h3|e h3]];
                   cbn [cache store reads];
                   try (destruct (overlay v3 _) as [v h'|e h']; cbn [cache store reads]))));
    rewrite ?decide_True by done; rewrite ?decide_False by done;
    unfold noted; simpl;
    rewrite <- ?app_assoc; simpl;
    try (by rewrite ?app_nil_r);
    eexists; (split; [|reflexivity || (by rewrite app_nil_r)]); eauto.
Qed.

End packages.

(** ** The script on sample configurations *)

(** The sample packages are as the script is proved to need them. *)
Lemma sample_packages_closed : keeps_closed sample_packages.
Proof.
  intros n c ps Hps. unfold configure, sample_packages.
  destruct (String.eqb c "BundleTracker"); [|done].
  unfold tracker_defaults.
  set (ps' := if truthy _ then ps else _).
  assert (map_Forall (λ _, value_in n) ps') as Hps'.
  { unfold ps'. destruct (truthy _); [done|]. by apply map_Forall_insert_2. }
  destruct (default VUndefined (ps' !! "logTime")); try done.
  by apply map_Forall_insert_2.
Qed.

Lemma tracker_defaults_renamed ρ ps :
  tracker_defaults (rename_value ρ <$> ps) = rename_value ρ <$> tracker_defaults ps.
Proof.
  unfold tracker_defaults. rewrite lookup_fmap.
  assert (∀ x : option value,
    truthy (default VUndefined (rename_value ρ <$> x)) = truthy (default VUndefined x)) as ->
    by (by intros [[]|]).
  set (ps' := if truthy _ then ps else _).
  assert ((if truthy (default VUndefined (ps !! "filename")) then rename_value ρ <$> ps
           else <["filename" := VStr "webpack-stats.json"]> (rename_value ρ <$> ps))
          = rename_value ρ <$> ps') as ->.
  { unfold ps'. destruct (truthy _); [done|]. by rewrite fmap_insert. }
  rewrite lookup_fmap.
  destruct (ps' !! "logTime") as [[]|]; simpl; try done; by rewrite fmap_insert.
Qed.

Lemma sample_packages_blind : address_blind sample_packages.
Proof.
  intros ρ c ps _. unfold configure, sample_packages.
  destruct (String.eqb c "BundleTracker"); [|done]. apply tracker_defaults_renamed.
Qed.

Example sample_run :
  ∃ h', overlay (pk := sample_packages) sample_config sample_heap = Return sample_config h' ∧
        length h' = 21 ∧
        field h' 0 "entry" = Some (VRef 10) ∧
        field h' 0 "plugins" = Some (VRef 16) ∧
        kind_at h' 16 = Some (KArray [VRef 3; VRef 11; VRef 12; VRef 14]) ∧
        kind_at h' 14 = Some (KInstance "BundleTracker" [VRef 13]) ∧
        field h' 13 "filename" = Some (VStr "./webpack-stats.json") ∧
        field h' 13 "logTime" = Some (VBool false) ∧
        kind_at h' 5 = Some (KArray [VRef 8; VRef 20]).
Proof. eexists. split; [vm_compute; reflexivity|]. by vm_compute. Qed.

Example test_accepts_jsx : regex_test jsx_re "assets/js/app.jsx" = true.
Proof. reflexivity. Qed.

Example test_rejects_json : regex_test jsx_re "package.json" = false.
Proof. reflexivity. Qed.

Example exclude_accepts_vendor :
  regex_test node_modules_re "/srv/app/node_modules/react/index.js" = true.
Proof. reflexivity. Qed.

Example exclude_rejects_source : regex_test node_modules_re "assets/js/app.js" = false.
Proof. reflexivity. Qed.

Lemma sample_with_plugins_object_closed : heap_closed sample_with_plugins_object.
Proof. apply (bool_decide_unpack _). vm_compute. reflexivity. Qed.

(** With a [plugins] that is not an array, [config.plugins.concat] is not a
    function. *)
Lemma sample_with_plugins_object_throws :
  ∃ h', overlay (pk := sample_packages) (VRef 0) sample_with_plugins_object = Throw (NotAFunction "concat") h'.
Proof. eexists. vm_compute. reflexivity. Qed.

(** * The claims *)

(** C1. For every base configuration, the script returns the configuration
    object it was given, and every property of every object of the base
    configuration keeps its value, except the configuration's [entry],
    [plugins] and [devtool] and the [publicPath] of its [output]; every
    object other than the array [module.rules] keeps its kind and, if it is an
    array, its elements.  In particular every top-level property other than
    those assigned is retained, [output] and [module] included: they still
    refer to the same objects. *)
Theorem overlay_frame {pk : Packages} h lc lo lp lm lr ps rs :
  heap_closed h → base_config h lc lo lp lm lr ps rs →
  ∃ h',
    overlay (VRef lc) h = Return (VRef lc) h' ∧
    (∀ k, k ∉ ["entry"; "plugins"; "devtool"] → (lo = lc → k ≠ "publicPath") →
          field h' lc k = field h lc k) ∧
    (∀ l k, l < length h → ¬ touched lc lo l k → field h' l k = field h l k) ∧
    (∀ l, l < length h → l ≠ lr → kind_at h' l = kind_at h l).
Proof.
  intros Hc Hb. exists (overlay_heap h lc lo lr ps).
  split; [by eapply overlay_run|].
  pose proof (field_Some _ _ _ _ (bc_output _ _ _ _ _ _ _ _ Hb)) as Hlc.
  assert (∀ l k, l < length h → ¬ touched lc lo l k →
    field (overlay_heap h lc lo lr ps) l k = field h l k) as Hframe.
  { intros l k Hl Hk. rewrite field_overlay_heap by done.
    by apply field_mutated_frame. }
  split; [|split; [done|]].
  - intros k Hk Hpp. apply Hframe; [done|]. unfold touched. naive_solver.
  - intros l Hl Hne. rewrite kind_at_overlay_heap by done.
    by apply kind_at_mutated.
Qed.

Lemma overlay_frame_witness :
  heap_closed sample_heap ∧ base_config sample_heap 0 1 2 4 5 [VRef 3] [VRef 8] ∧
  ∃ h',
    overlay (pk := sample_packages) sample_config sample_heap = Return sample_config h' ∧
    (∀ k, k ∉ ["entry"; "plugins"; "devtool"] → (1 = 0 → k ≠ "publicPath") →
          field h' 0 k = field sample_heap 0 k) ∧
    (∀ l k, l < length sample_heap → ¬ touched 0 1 l k →
            field h' l k = field sample_heap l k) ∧
    (∀ l, l < length sample_heap → l ≠ 5 → kind_at h' l = kind_at sample_heap l).
Proof.
  split; [|split].
  - apply sample_closed.
  - apply sample_base_config.
  - apply (overlay_frame (pk := sample_packages) sample_heap 0 1 2 4 5 [VRef 3] [VRef 8]).
    + apply sample_closed.
    + apply sample_base_config.
Defined.

(** C2. For every base configuration, the script returns the configuration
    object with its [entry] bound to a new array of exactly three strings, in
    this order: the locator of the dev-server client, the locator of the
    hot-reload runtime, the path of the entry module of the application.
    Nothing is assumed of the [entry] the base configuration had. *)
Theorem overlay_entry {pk : Packages} h lc lo lp lm lr ps rs :
  heap_closed h → base_config h lc lo lp lm lr ps rs →
  ∃ h' le,
    overlay (VRef lc) h = Return (VRef lc) h' ∧
    field h' lc "entry" = Some (VRef le) ∧
    h' !! le = Some (array [VStr "webpack-dev-server/client?http://localhost:3000";
                            VStr "webpack/hot/only-dev-server";
                            VStr "../assets/js/app.js"]).
Proof.
  intros Hc Hb. exists (overlay_heap h lc lo lr ps), (length h).
  split; [by eapply overlay_run|].
  pose proof (field_Some _ _ _ _ (bc_output _ _ _ _ _ _ _ _ Hb)) as Hlc.
  split; [by apply field_overlay_heap_entry|apply overlay_heap_entry].
Qed.

Lemma overlay_entry_witness :
  heap_closed sample_heap ∧ base_config sample_heap 0 1 2 4 5 [VRef 3] [VRef 8] ∧
  ∃ h' le,
    overlay (pk := sample_packages) sample_config sample_heap = Return sample_config h' ∧
    field h' 0 "entry" = Some (VRef le) ∧
    h' !! le = Some (array [VStr "webpack-dev-server/client?http://localhost:3000";
                            VStr "webpack/hot/only-dev-server";
                            VStr "../assets/js/app.js"]).
Proof.
  split; [|split].
  - apply sample_closed.
  - apply sample_base_config.
  - apply (overlay_entry (pk := sample_packages) sample_heap 0 1 2 4 5 [VRef 3] [VRef 8]).
    + apply sample_closed.
    + apply sample_base_config.
Defined.

(** C3. For every base configuration whose [plugins] is a sequence [ps] of
    length n, after the script the configuration's [plugins] is a new array of
    length n + 3: the elements of [ps] in their order, then an instance of the
    hot-module-replacement plugin, an instance of the no-emit-on-errors
    plugin, and an instance of the bundle tracker.  The tracker was built
    with one argument, an object that the script made with the one property
    [filename: './webpack-stats.json'] and that is now as the constructor of
    the tracker left it. *)
Theorem overlay_plugins {pk : Packages} h lc lo lp lm lr ps rs :
  heap_closed h → base_config h lc lo lp lm lr ps rs →
  ∃ h' lp' es hmr noemit tracker options,
    overlay (VRef lc) h = Return (VRef lc) h' ∧
    field h' lc "plugins" = Some (VRef lp') ∧
    h' !! lp' = Some (array es) ∧
    length es = length ps + 3 ∧
    take (length ps) es = ps ∧
    drop (length ps) es = [VRef hmr; VRef noemit; VRef tracker] ∧
    kind_at h' hmr = Some (KInstance "HotModuleReplacementPlugin" []) ∧
    kind_at h' noemit = Some (KInstance "NoEmitOnErrorsPlugin" []) ∧
    kind_at h' tracker = Some (KInstance "BundleTracker" [VRef options]) ∧
    h' !! options = Some (configured "BundleTracker"
                            (plain {[ "filename" := VStr "./webpack-stats.json" ]})).
Proof.
  intros Hc Hb. set (n := length h).
  exists (overlay_heap h lc lo lr ps), (n + 6),
    (ps ++ [VRef (n + 1); VRef (n + 2); VRef (n + 4)]), (n + 1), (n + 2), (n + 4), (n + 3).
  split; [by eapply overlay_run|].
  pose proof (field_Some _ _ _ _ (bc_output _ _ _ _ _ _ _ _ Hb)) as Hlc.
  subst n. unfold kind_at. rewrite !overlay_heap_new. simpl.
  rewrite length_app, take_app_length, drop_app_length. simpl.
  repeat split; try done.
  by apply field_overlay_heap_plugins.
Qed.

Lemma overlay_plugins_witness :
  heap_closed sample_heap ∧ base_config sample_heap 0 1 2 4 5 [VRef 3] [VRef 8] ∧
  ∃ h' lp' es hmr noemit tracker options,
    overlay (pk := sample_packages) sample_config sample_heap = Return sample_config h' ∧
    field h' 0 "plugins" = Some (VRef lp') ∧
    h' !! lp' = Some (array es) ∧
    length es = 1 + 3 ∧
    take 1 es = [VRef 3] ∧
    drop 1 es = [VRef hmr; VRef noemit; VRef tracker] ∧
    kind_at h' hmr = Some (KInstance "HotModuleReplacementPlugin" []) ∧
    kind_at h' noemit = Some (KInstance "NoEmitOnErrorsPlugin" []) ∧
    kind_at h' tracker = Some (KInstance "BundleTracker" [VRef options]) ∧
    h' !! options = Some (configured (pk := sample_packages) "BundleTracker"
                            (plain {[ "filename" := VStr "./webpack-stats.json" ]})).
Proof.
  split; [|split].
  - apply sample_closed.
  - apply sample_base_config.
  - apply (overlay_plugins (pk := sample_packages) sample_heap 0 1 2 4 5 [VRef 3] [VRef 8]).
    + apply sample_closed.
    + apply sample_base_config.
Defined.

(** C4. For every base configuration whose [module.rules] is a sequence [rs]
    of length n, after the script [module.rules] is the same array, now of
    length n + 1: the elements of [rs] in their order, then the new rule.  The
    rule's [test] accepts exactly the names ending in [.js] or [.jsx], its
    [exclude] accepts exactly the paths in which [node_modules] occurs, and
    its [loaders] is the one-element list of the babel loader. *)
Theorem overlay_rules {pk : Packages} h lc lo lp lm lr ps rs :
  heap_closed h → base_config h lc lo lp lm lr ps rs →
  ∃ h' es rule test exclude loaders t x,
    overlay (VRef lc) h = Return (VRef lc) h' ∧
    field h' lc "module" = Some (VRef lm) ∧
    field h' lm "rules" = Some (VRef lr) ∧
    kind_at h' lr = Some (KArray es) ∧
    length es = length rs + 1 ∧
    es = rs ++ [VRef rule] ∧
    h' !! rule = Some (plain (<["test" := VRef test]> (<["exclude" := VRef exclude]>
                              {[ "loaders" := VRef loaders ]}))) ∧
    h' !! test = Some (regexp t) ∧
    (∀ path, regex_test t path = true ↔ ends_with path ".js" ∨ ends_with path ".jsx") ∧
    h' !! exclude = Some (regexp x) ∧
    (∀ path, regex_test x path = true ↔ contains path "node_modules") ∧
    h' !! loaders = Some (array [VStr "babel-loader"]).
Proof.
  intros Hc Hb. set (n := length h).
  exists (overlay_heap h lc lo lr ps), (rs ++ [VRef (n + 10)]),
    (n + 10), (n + 7), (n + 8), (n + 9), jsx_re, node_modules_re.
  split; [by eapply overlay_run|].
  destruct Hb as [Ho _ _ Hm Hr [Hrk _]].
  pose proof (field_Some _ _ _ _ Ho) as Hlc.
  pose proof (heap_closed_field _ _ _ _ Hc Hm) as Hlm.
  subst n. rewrite !overlay_heap_new. simpl.
  rewrite !field_overlay_heap_key by (done || set_solver).
  rewrite length_app. simpl.
  repeat split; try done.
  - by apply kind_at_overlay_heap_rules.
  - by apply jsx_re_spec.
  - by apply jsx_re_spec.
  - by apply node_modules_re_spec.
  - by apply node_modules_re_spec.
Qed.

Lemma overlay_rules_witness :
  heap_closed sample_heap ∧ base_config sample_heap 0 1 2 4 5 [VRef 3] [VRef 8] ∧
  ∃ h' es rule test exclude loaders t x,
    overlay (pk := sample_packages) sample_config sample_heap = Return sample_config h' ∧
    field h' 0 "module" = Some (VRef 4) ∧
    field h' 4 "rules" = Some (VRef 5) ∧
    kind_at h' 5 = Some (KArray es) ∧
    length es = 1 + 1 ∧
    es = [VRef 8] ++ [VRef rule] ∧
    h' !! rule = Some (plain (<["test" := VRef test]> (<["exclude" := VRef exclude]>
                              {[ "loaders" := VRef loaders ]}))) ∧
    h' !! test = Some (regexp t) ∧
    (∀ path, regex_test t path = true ↔ ends_with path ".js" ∨ ends_with path ".jsx") ∧
    h' !! exclude = Some (regexp x) ∧
    (∀ path, regex_test x path = true ↔ contains path "node_modules") ∧
    h' !! loaders = Some (array [VStr "babel-loader"]).
Proof.
  split; [|split].
  - apply sample_closed.
  - apply sample_base_config.
  - apply (overlay_rules (pk := sample_packages) sample_heap 0 1 2 4 5 [VRef 3] [VRef 8]).
    + apply sample_closed.
    + apply sample_base_config.
Defined.

(** C5. For every base configuration, after the script the object that is the
    configuration's [output] has [publicPath] bound to the URL of the asset
    root of the dev server, whatever it was bound to before, if at all. *)
Theorem overlay_public_path {pk : Packages} h lc lo lp lm lr ps rs :
  heap_closed h → base_config h lc lo lp lm lr ps rs →
  ∃ h',
    overlay (VRef lc) h = Return (VRef lc) h' ∧
    field h' lc "output" = Some (VRef lo) ∧
    field h' lo "publicPath" = Some (VStr "http://localhost:3000/assets/bundles/").
Proof.
  intros Hc Hb. exists (overlay_heap h lc lo lr ps).
  split; [by eapply overlay_run|].
  destruct Hb as [Ho _ _ _ _ _].
  pose proof (field_Some _ _ _ _ Ho) as Hlc.
  pose proof (heap_closed_field _ _ _ _ Hc Ho) as Hlo.
  split.
  - by rewrite field_overlay_heap_key by set_solver.
  - by apply field_overlay_heap_public_path.
Qed.

Lemma overlay_public_path_witness :
  heap_closed sample_heap ∧ base_config sample_heap 0 1 2 4 5 [VRef 3] [VRef 8] ∧
  ∃ h',
    overlay (pk := sample_packages) sample_config sample_heap = Return sample_config h' ∧
    field h' 0 "output" = Some (VRef 1) ∧
    field h' 1 "publicPath" = Some (VStr "http://localhost:3000/assets/bundles/").
Proof.
  split; [|split].
  - apply sample_closed.
  - apply sample_base_config.
  - apply (overlay_public_path (pk := sample_packages) sample_heap 0 1 2 4 5 [VRef 3] [VRef 8]).
    + apply sample_closed.
    + apply sample_base_config.
Defined.

(** C6. For every base configuration, after the script the configuration's
    [devtool] is the string that selects inline source maps, whatever it was
    before. *)
Theorem overlay_devtool {pk : Packages} h lc lo lp lm lr ps rs :
  heap_closed h → base_config h lc lo lp lm lr ps rs →
  ∃ h',
    overlay (VRef lc) h = Return (VRef lc) h' ∧
    field h' lc "devtool" = Some (VStr "inline-source-map").
Proof.
  intros Hc Hb. exists (overlay_heap h lc lo lr ps).
  split; [by eapply overlay_run|].
  pose proof (field_Some _ _ _ _ (bc_output _ _ _ _ _ _ _ _ Hb)) as Hlc.
  by apply field_overlay_heap_devtool.
Qed.

Lemma overlay_devtool_witness :
  heap_closed sample_heap ∧ base_config sample_heap 0 1 2 4 5 [VRef 3] [VRef 8] ∧
  ∃ h',
    overlay (pk := sample_packages) sample_config sample_heap = Return sample_config h' ∧
    field h' 0 "devtool" = Some (VStr "inline-source-map").
Proof.
  split; [|split].
  - apply sample_closed.
  - apply sample_base_config.
  - apply (overlay_devtool (pk := sample_packages) sample_heap 0 1 2 4 5 [VRef 3] [VRef 8]).
    + apply sample_closed.
    + apply sample_base_config.
Defined.

(** C7. The script is not idempotent.  Run a second time on the object it
    returned, it succeeds again and appends again: [plugins], of length p at
    the start, has length p + 3 after the first run and p + 6 after the
    second, the second run adding three more instances of the same three
    classes behind those of the first; [module.rules], of length r at the
    start, has length r + 1 and then r + 2.  The second run leaves [devtool]
    and [output.publicPath] as the first run set them, and binds [entry] to a
    new array with the same three elements. *)
Theorem overlay_twice {pk : Packages} h lc lo lp lm lr ps rs :
  heap_closed h → base_config h lc lo lp lm lr ps rs →
  ∃ h1 h2 lp1 lp2 es1 es2 rs1 rs2 le1 le2,
    overlay (VRef lc) h = Return (VRef lc) h1 ∧
    overlay (VRef lc) h1 = Return (VRef lc) h2 ∧
    (field h1 lc "plugins" = Some (VRef lp1) ∧ kind_at h1 lp1 = Some (KArray es1) ∧
     field h2 lc "plugins" = Some (VRef lp2) ∧ kind_at h2 lp2 = Some (KArray es2) ∧
     length es1 = length ps + 3 ∧ length es2 = length ps + 6 ∧
     ∃ a b c a' b' c' o o',
       es1 = ps ++ [VRef a; VRef b; VRef c] ∧
       es2 = es1 ++ [VRef a'; VRef b'; VRef c'] ∧
       kind_at h2 a = Some (KInstance "HotModuleReplacementPlugin" []) ∧
       kind_at h2 a' = Some (KInstance "HotModuleReplacementPlugin" []) ∧
       kind_at h2 b = Some (KInstance "NoEmitOnErrorsPlugin" []) ∧
       kind_at h2 b' = Some (KInstance "NoEmitOnErrorsPlugin" []) ∧
       kind_at h2 c = Some (KInstance "BundleTracker" [VRef o]) ∧
       kind_at h2 c' = Some (KInstance "BundleTracker" [VRef o']) ∧
       h2 !! o = h2 !! o') ∧
    (field h1 lm "rules" = Some (VRef lr) ∧ kind_at h1 lr = Some (KArray rs1) ∧
     field h2 lm "rules" = Some (VRef lr) ∧ kind_at h2 lr = Some (KArray rs2) ∧
     length rs1 = length rs + 1 ∧ length rs2 = length rs + 2 ∧
     ∃ r1 r2, rs1 = rs ++ [VRef r1] ∧ rs2 = rs1 ++ [VRef r2] ∧
              kind_at h2 r1 = Some KObject ∧ kind_at h2 r2 = Some KObject) ∧
    (es2 ≠ es1 ∧ rs2 ≠ rs1 ∧ h2 ≠ h1) ∧
    (field h1 lc "entry" = Some (VRef le1) ∧ field h2 lc "entry" = Some (VRef le2) ∧
     h2 !! le2 = h1 !! le1) ∧
    field h2 lo "publicPath" = field h1 lo "publicPath" ∧
    field h2 lc "devtool" = field h1 lc "devtool".
Proof.
  intros Hc Hb. set (n := length h).
  set (es1 := ps ++ [VRef (n + 1); VRef (n + 2); VRef (n + 4)]).
  set (rs1 := rs ++ [VRef (n + 10)]).
  set (h1 := overlay_heap h lc lo lr ps).
  set (h2 := overlay_heap h1 lc lo lr es1).
  pose proof (overlay_heap_base_config _ _ _ _ _ _ _ _ Hc Hb) as Hb1.
  fold n h1 es1 rs1 in Hb1.
  assert (length h1 = n + 11) as Hn1 by apply length_overlay_heap.
  destruct Hb as [Ho Hp Hps Hm Hr [Hrk Hrs]].
  pose proof (field_Some _ _ _ _ Ho) as Hlc.
  pose proof (heap_closed_field _ _ _ _ Hc Ho) as Hlo.
  pose proof (heap_closed_field _ _ _ _ Hc Hm) as Hlm.
  pose proof (kind_at_Some _ _ _ Hrk) as Hlr.
  fold n in Hlc, Hlo, Hlm, Hlr.
  assert (∀ i, i < 11 → h2 !! (n + i) = fresh n ps !! i) as Hold.
  { intros i Hi. unfold h2. rewrite overlay_heap_untouched by lia.
    apply overlay_heap_new. }
  assert (∀ i, h1 !! (n + i) = fresh n ps !! i) as Hnew1.
  { intros i. apply overlay_heap_new. }
  assert (∀ i, h2 !! (n + 11 + i) = fresh (n + 11) es1 !! i) as Hnew.
  { intros i. unfold h2. rewrite <- Hn1. apply overlay_heap_new. }
  exists h1, h2, (n + 6), (n + 11 + 6), es1,
    (es1 ++ [VRef (n + 11 + 1); VRef (n + 11 + 2); VRef (n + 11 + 4)]),
    rs1, (rs1 ++ [VRef (n + 11 + 10)]), n, (n + 11).
  split; [by eapply overlay_run; [|split]|].
  split; [eapply overlay_run_in; [| |exact Hb1]; lia|].
  split; [|split; [|split; [|split; [|split]]]].
  - split; [by apply field_overlay_heap_plugins|].
    split; [unfold kind_at; by rewrite Hnew1|].
    split; [unfold h2; rewrite <- Hn1; apply field_overlay_heap_plugins; lia|].
    split; [unfold kind_at; by rewrite Hnew|].
    unfold es1. rewrite !length_app. simpl.
    split; [lia|]. split; [lia|].
    exists (n + 1), (n + 2), (n + 4), (n + 11 + 1), (n + 11 + 2), (n + 11 + 4),
      (n + 3), (n + 11 + 3).
    unfold kind_at. rewrite !Hold by lia. rewrite !Hnew. done.
  - split; [unfold h1; by rewrite field_overlay_heap_key by set_solver|].
    split; [by apply kind_at_overlay_heap_rules|].
    split.
    { unfold h2. rewrite field_overlay_heap_key; [|lia|set_solver].
      unfold h1. by rewrite field_overlay_heap_key by (done || set_solver). }
    split.
    { unfold h2. rewrite <- Hn1. apply kind_at_overlay_heap_rules.
      by apply kind_at_overlay_heap_rules. }
    unfold rs1. rewrite !length_app. simpl.
    split; [lia|]. split; [lia|].
    exists (n + 10), (n + 11 + 10). unfold kind_at.
    rewrite Hold by lia. rewrite Hnew. done.
  - assert (∀ (A : Type) (l k : list A), k ≠ [] → l ++ k ≠ l) as Hgrow.
    { intros A l k Hk E. apply Hk. apply (f_equal length) in E.
      rewrite length_app in E. destruct k; [done|simpl in E; lia]. }
    split; [by apply Hgrow|]. split; [by apply Hgrow|].
    intros E. apply (f_equal length) in E. unfold h2 in E.
    rewrite length_overlay_heap in E. lia.
  - split; [by apply field_overlay_heap_entry|].
    split; [unfold h2; rewrite <- Hn1; apply field_overlay_heap_entry; lia|].
    rewrite <- (Nat.add_0_r (n + 11)). rewrite Hnew.
    symmetry. apply overlay_heap_entry.
  - unfold h2. rewrite field_overlay_heap_public_path by lia.
    unfold h1. by rewrite field_overlay_heap_public_path.
  - unfold h2. rewrite field_overlay_heap_devtool by lia.
    unfold h1. by rewrite field_overlay_heap_devtool.
Qed.

Lemma overlay_twice_witness :
  heap_closed sample_heap ∧ base_config sample_heap 0 1 2 4 5 [VRef 3] [VRef 8] ∧
  ∃ h1 h2 lp2 es2 rs2,
    overlay (pk := sample_packages) sample_config sample_heap = Return sample_config h1 ∧
    overlay (pk := sample_packages) sample_config h1 = Return sample_config h2 ∧
    field h2 0 "plugins" = Some (VRef lp2) ∧
    kind_at h2 lp2 = Some (KArray es2) ∧ length es2 = 1 + 6 ∧
    kind_at h2 5 = Some (KArray rs2) ∧ length rs2 = 1 + 2.
Proof.
  split; [apply sample_closed|]. split; [apply sample_base_config|].
  destruct (overlay_twice (pk := sample_packages) sample_heap 0 1 2 4 5 [VRef 3] [VRef 8]
              sample_closed sample_base_config)
    as (h1 & h2 & lp1 & lp2 & es1 & es2 & rs1 & rs2 & le1 & le2 & H1 & H2 & Hp & Hr & _).
  exists h1, h2, lp2, es2, rs2.
  destruct Hp as (_ & _ & Hp2 & Hk2 & _ & Hl2 & _).
  destruct Hr as (_ & _ & _ & Hr2 & _ & Hlr2 & _).
  repeat split; assumption.
Defined.

(** C8. The script guards nothing.  On a configuration without [output] it
    throws the TypeError of assigning [publicPath] on [undefined]; on a
    configuration without [module.rules] it throws a TypeError, which is,
    when [output] and [plugins] are as expected, that of reading [rules] or
    [push] from [undefined].  Conversely, on every base
    configuration, which has all the fields the script goes through ([output],
    [plugins], [module] and its [rules]), it throws nothing and returns the
    configuration. *)
Theorem overlay_fail_fast {pk : Packages} h lc :
  heap_closed h →
  (lacks h lc "output" →
   ∃ h', overlay (VRef lc) h = Throw (CannotSetProperty "publicPath" VUndefined) h') ∧
  (missing_rules h lc →
   (∃ e h', overlay (VRef lc) h = Throw e h' ∧ type_error e) ∧
   (∀ lo lp ps,
      field h lc "output" = Some (VRef lo) →
      field h lc "plugins" = Some (VRef lp) →
      is_sequence h lp ps →
      ∃ k h', k ∈ ["rules"; "push"] ∧
              overlay (VRef lc) h = Throw (CannotReadProperty k VUndefined) h')) ∧
  (∀ lo lp lm lr ps rs,
     base_config h lc lo lp lm lr ps rs →
     ∃ h', overlay (VRef lc) h = Return (VRef lc) h').
Proof.
  intros Hc. split; [|split].
  - apply overlay_without_output.
  - intros Hmiss. split.
    + eapply triple_throws; [by apply overlay_throws_without_rules|].
      apply unchanged_refl.
    + intros lo lp ps Ho Hp Hps. by eapply overlay_without_rules.
  - intros lo lp lm lr ps rs Hb. eexists. by eapply overlay_run.
Qed.

Lemma overlay_fail_fast_witness :
  (∃ h', overlay (pk := sample_packages) (VRef 0) sample_without_output
         = Throw (CannotSetProperty "publicPath" VUndefined) h') ∧
  (∃ k h', k ∈ ["rules"; "push"] ∧
           overlay (pk := sample_packages) (VRef 0) sample_without_rules
           = Throw (CannotReadProperty k VUndefined) h') ∧
  (∃ h', overlay (pk := sample_packages) sample_config sample_heap = Return sample_config h').
Proof.
  split; [|split].
  - apply (overlay_fail_fast (pk := sample_packages) sample_without_output 0 sample_without_output_closed).
    split; [simpl; lia|reflexivity].
  - apply (overlay_fail_fast (pk := sample_packages) sample_without_rules 0 sample_without_rules_closed)
      with (lo := 1) (lp := 2) (ps := [VRef 4]).
    + right. exists 3. split; [reflexivity|]. split; [simpl; lia|reflexivity].
    + reflexivity.
    + reflexivity.
    + by split; [|split; [|split]]; vm_compute.
  - apply (overlay_fail_fast (pk := sample_packages) sample_heap 0 sample_closed)
      with (lo := 1) (lp := 2) (lm := 4) (lr := 5) (ps := [VRef 3]) (rs := [VRef 8]).
    apply sample_base_config.
Defined.


Lemma sample_similar : similar S sample_heap shifted_heap.
Proof.
  split.
  - intros l. unfold shifted_heap. by rewrite lookup_cons, list_lookup_fmap.
  - intros i. unfold shifted_heap. simpl. lia.
Qed.



(** C10. On a configuration without [plugins] the script throws as well, a
    TypeError of property access: when [output] is as expected, it is the
    third statement that throws, reading [concat] from [undefined]. *)
Theorem overlay_missing_plugins {pk : Packages} h lc :
  heap_closed h → lacks h lc "plugins" →
  (∃ e h', overlay (VRef lc) h = Throw e h' ∧ access_error e) ∧
  (∀ lo, field h lc "output" = Some (VRef lo) →
         ∃ h', overlay (VRef lc) h = Throw (CannotReadProperty "concat" VUndefined) h').
Proof.
  intros Hc Hp. split.
  - eapply triple_throws; [by apply overlay_throws_without_plugins|].
    apply unchanged_refl.
  - intros lo Ho. by eapply overlay_without_plugins.
Qed.

Lemma overlay_missing_plugins_witness :
  heap_closed sample_without_plugins ∧ lacks sample_without_plugins 0 "plugins" ∧
  ∃ h', overlay (pk := sample_packages) (VRef 0) sample_without_plugins
        = Throw (CannotReadProperty "concat" VUndefined) h'.
Proof.
  assert (lacks sample_without_plugins 0 "plugins") as Hp
    by (split; [simpl; lia|reflexivity]).
  split; [apply sample_without_plugins_closed|]. split; [exact Hp|].
  apply (overlay_missing_plugins (pk := sample_packages) sample_without_plugins 0
           sample_without_plugins_closed Hp) with (lo := 1).
  reflexivity.
Defined.

(** * Further properties of the script *)

(** ** The script can be run again *)

(** X1. The script keeps what it relies on: run on a base configuration in a
    closed store, it leaves a store in which the object it returns is a base
    configuration again, with the same [output], [module] and [module.rules]
    objects and a new [plugins] array; and the store is closed again, provided
    the constructors of the packages put no dangling reference into the
    options they are given. *)
Theorem overlay_keeps_base_config {pk : Packages} h lc lo lp lm lr ps rs :
  keeps_closed pk →
  heap_closed h → base_config h lc lo lp lm lr ps rs →
  ∃ h' lp' ps' rs',
    overlay (VRef lc) h = Return (VRef lc) h' ∧
    heap_closed h' ∧
    base_config h' lc lo lp' lm lr ps' rs' ∧
    (length h ≤ lp')%nat ∧ length h < length h'.
Proof.
  intros Hpk Hc Hb. eexists _, _, _, _.
  split; [by eapply overlay_run|].
  split; [by eapply overlay_heap_closed|].
  split; [by eapply overlay_heap_base_config|].
  rewrite length_overlay_heap. lia.
Qed.

Lemma overlay_keeps_base_config_witness :
  heap_closed sample_heap ∧ base_config sample_heap 0 1 2 4 5 [VRef 3] [VRef 8] ∧
  ∃ h' lp' ps' rs',
    overlay (pk := sample_packages) sample_config sample_heap = Return sample_config h' ∧
    heap_closed h' ∧
    base_config h' 0 1 lp' 4 5 ps' rs' ∧
    (length sample_heap ≤ lp')%nat ∧ length sample_heap < length h'.
Proof.
  split; [apply sample_closed|]. split; [apply sample_base_config|].
  apply (overlay_keeps_base_config (pk := sample_packages) sample_heap 0 1 2 4 5 [VRef 3] [VRef 8]).
  - apply sample_packages_closed.
  - apply sample_closed.
  - apply sample_base_config.
Defined.

Lemma repeat_overlay_run {pk : Packages} k : ∀ h lc lo lp lm lr ps rs,
  lo < length h → lm < length h → base_config h lc lo lp lm lr ps rs →
  ∃ h' lp' ps' rs',
    repeat_overlay k (VRef lc) h = Return (VRef lc) h' ∧
    base_config h' lc lo lp' lm lr (ps ++ ps') (rs ++ rs') ∧
    length ps' = 3 * k ∧ length rs' = k.
Proof.
  induction k as [|k IH]; intros h lc lo lp lm lr ps rs Hlo Hlm Hb.
  - exists h, lp, [], []. rewrite !app_nil_r. done.
  - pose proof (overlay_heap_base_config_in _ _ _ _ _ _ _ _ Hlm Hb) as Hb1.
    assert (lo < length (overlay_heap h lc lo lr ps)) as Hlo1
      by (rewrite length_overlay_heap; lia).
    assert (lm < length (overlay_heap h lc lo lr ps)) as Hlm1
      by (rewrite length_overlay_heap; lia).
    destruct (IH _ _ _ _ _ _ _ _ Hlo1 Hlm1 Hb1)
      as (h' & lp' & ps' & rs' & Hrun & Hb' & Hps & Hrs).
    exists h', lp',
      ([VRef (length h + 1); VRef (length h + 2); VRef (length h + 4)] ++ ps'),
      ([VRef (length h + 10)] ++ rs').
    split.
    { cbn [repeat_overlay]. unfold bind.
      by rewrite (overlay_run_in h lc lo lp lm lr ps rs). }
    rewrite !app_assoc. split; [done|].
    rewrite !length_app, Hps, Hrs. simpl. lia.
Qed.

(** X2. Run [k] times in a row on a base configuration whose [plugins] has
    length p and whose [module.rules] has length r, the script returns every
    time, and leaves [plugins] with length p + 3k and [module.rules] with
    length r + k, the original elements first, in their order. *)
Theorem repeat_overlay_lengths {pk : Packages} k h lc lo lp lm lr ps rs :
  heap_closed h → base_config h lc lo lp lm lr ps rs →
  ∃ h' lp' ps' rs',
    repeat_overlay k (VRef lc) h = Return (VRef lc) h' ∧
    field h' lc "plugins" = Some (VRef lp') ∧
    kind_at h' lp' = Some (KArray ps') ∧
    length ps' = length ps + 3 * k ∧ take (length ps) ps' = ps ∧
    field h' lc "module" = Some (VRef lm) ∧
    field h' lm "rules" = Some (VRef lr) ∧
    kind_at h' lr = Some (KArray rs') ∧
    length rs' = length rs + k ∧ take (length rs) rs' = rs.
Proof.
  intros Hc Hb.
  assert (lo < length h ∧ lm < length h) as [Hlo Hlm]
    by (destruct Hb; split; by eapply heap_closed_field).
  destruct (repeat_overlay_run k _ _ _ _ _ _ _ _ Hlo Hlm Hb)
    as (h' & lp' & ps' & rs' & Hrun & [_ Hp [Hpk _] Hm Hr [Hrk _]] & Hps & Hrs).
  exists h', lp', (ps ++ ps'), (rs ++ rs').
  rewrite !length_app, !take_app_length, Hps, Hrs. done.
Qed.

Lemma repeat_overlay_lengths_witness :
  heap_closed sample_heap ∧ base_config sample_heap 0 1 2 4 5 [VRef 3] [VRef 8] ∧
  ∃ h' lp' ps' rs',
    repeat_overlay (pk := sample_packages) 3 sample_config sample_heap = Return sample_config h' ∧
    field h' 0 "plugins" = Some (VRef lp') ∧
    kind_at h' lp' = Some (KArray ps') ∧
    length ps' = 1 + 3 * 3 ∧ take 1 ps' = [VRef 3] ∧
    field h' 0 "module" = Some (VRef 4) ∧
    field h' 4 "rules" = Some (VRef 5) ∧
    kind_at h' 5 = Some (KArray rs') ∧
    length rs' = 1 + 3 ∧ take 1 rs' = [VRef 8].
Proof.
  split; [apply sample_closed|]. split; [apply sample_base_config|].
  apply (repeat_overlay_lengths (pk := sample_packages) 3 sample_heap 0 1 2 4 5 [VRef 3] [VRef 8]).
  - apply sample_closed.
  - apply sample_base_config.
Defined.

(** ** A failing run is not undone *)

Lemma overlay_without_rules_store {pk : Packages} h lc lo lp ps :
  heap_closed h →
  field h lc "output" = Some (VRef lo) →
  field h lc "plugins" = Some (VRef lp) →
  is_sequence h lp ps →
  missing_rules h lc →
  ∃ k, overlay (VRef lc) h
       = Throw (CannotReadProperty k VUndefined) (before_push h lc lo ps).
Proof.
  intros Hc Ho Hp Hps Hmiss.
  pose proof (field_Some _ _ _ _ Ho) as Hlc.
  pose proof (heap_closed_field _ _ _ _ Hc Ho) as Hlo.
  unfold overlay. rewrite (prefix_run _ h lc lo lp ps) by done.
  unfold push_rule. rewrite !bind_assoc.
  destruct Hmiss as [[_ Hmod] | (lm & Hmod & Hlm & Hrules)].
  - exists "rules".
    rewrite bind_get_prop by (rewrite length_before_push; lia).
    rewrite field_before_push by (done || set_solver). rewrite Hmod. reflexivity.
  - exists "push".
    rewrite (bind_get_prop_Some _ _ (VRef lm))
      by (by rewrite field_before_push by (done || set_solver)).
    rewrite !bind_assoc.
    rewrite bind_get_prop by (rewrite length_before_push; lia).
    rewrite field_before_push by (done || set_solver). rewrite Hrules. reflexivity.
Qed.

(** X3. The script undoes nothing when it throws.  On a configuration whose
    [output] and [plugins] are as expected and that has no [module.rules],
    the last statement throws, and the store it throws with holds the
    configuration with [entry], [output.publicPath], [plugins] (the extended
    array) and [devtool] already assigned; only the rule is missing. *)
Theorem overlay_throws_half_done {pk : Packages} h lc lo lp ps :
  heap_closed h →
  field h lc "output" = Some (VRef lo) →
  field h lc "plugins" = Some (VRef lp) →
  is_sequence h lp ps →
  missing_rules h lc →
  ∃ e h' le lp' es,
    overlay (VRef lc) h = Throw e h' ∧
    field h' lc "entry" = Some (VRef le) ∧
    h' !! le = Some (array [VStr "webpack-dev-server/client?http://localhost:3000";
                            VStr "webpack/hot/only-dev-server";
                            VStr "../assets/js/app.js"]) ∧
    field h' lo "publicPath" = Some (VStr "http://localhost:3000/assets/bundles/") ∧
    field h' lc "plugins" = Some (VRef lp') ∧
    h' !! lp' = Some (array es) ∧ length es = length ps + 3 ∧
    field h' lc "devtool" = Some (VStr "inline-source-map").
Proof.
  intros Hc Ho Hp Hps Hmiss.
  destruct (overlay_without_rules_store _ _ _ _ _ Hc Ho Hp Hps Hmiss) as [k Hrun].
  pose proof (field_Some _ _ _ _ Ho) as Hlc.
  pose proof (heap_closed_field _ _ _ _ Hc Ho) as Hlo.
  set (n := length h).
  assert (∀ i, i < 7 → before_push h lc lo ps !! (n + i) = fresh n ps !! i) as Hnew.
  { intros i Hi. unfold before_push. rewrite lookup_app_r by len.
    rewrite !length_alter. replace (n + i - length h) with i by (unfold n; lia).
    by apply lookup_take_lt. }
  exists (CannotReadProperty k VUndefined), (before_push h lc lo ps), n, (n + 6),
    (ps ++ [VRef (n + 1); VRef (n + 2); VRef (n + 4)]).
  split; [done|].
  rewrite <- (Nat.add_0_r n) at 2. rewrite !Hnew by lia.
  rewrite length_app. simpl.
  repeat split; try done; unfold before_push; rewrite field_app_l by len; fold n;
    observe; apply field_set_eq; len.
Qed.

Lemma overlay_throws_half_done_witness :
  ∃ e h' le lp' es,
    overlay (pk := sample_packages) (VRef 0) sample_without_rules = Throw e h' ∧
    field h' 0 "entry" = Some (VRef le) ∧
    h' !! le = Some (array [VStr "webpack-dev-server/client?http://localhost:3000";
                            VStr "webpack/hot/only-dev-server";
                            VStr "../assets/js/app.js"]) ∧
    field h' 1 "publicPath" = Some (VStr "http://localhost:3000/assets/bundles/") ∧
    field h' 0 "plugins" = Some (VRef lp') ∧
    h' !! lp' = Some (array es) ∧ length es = 1 + 3 ∧
    field h' 0 "devtool" = Some (VStr "inline-source-map").
Proof.
  apply (overlay_throws_half_done (pk := sample_packages) sample_without_rules 0 1 2 [VRef 4]).
  - apply sample_without_rules_closed.
  - reflexivity.
  - reflexivity.
  - by split; [|split; [|split]]; vm_compute.
  - right. exists 3. split; [reflexivity|]. split; [simpl; lia|reflexivity].
Defined.

(** X4. On a configuration without [output] the script throws in its second
    statement, after the first: the store it throws with has one object more,
    the new [entry] array, to which the configuration's [entry] is bound;
    every other property of every object, and every array, is as it was. *)
Theorem overlay_throws_after_entry {pk : Packages} h lc :
  lacks h lc "output" →
  ∃ h',
    overlay (VRef lc) h = Throw (CannotSetProperty "publicPath" VUndefined) h' ∧
    length h' = length h + 1 ∧
    field h' lc "entry" = Some (VRef (length h)) ∧
    (∀ l k, l < length h → ¬ (l = lc ∧ k = "entry") → field h' l k = field h l k) ∧
    (∀ l, l < length h → kind_at h' l = kind_at h l).
Proof.
  intros [Hlc Ho].
  exists (alter (set_field "entry" (VRef (length h))) lc
            (h ++ [array [VStr dev_client; VStr hot_runtime; VStr app_entry]])).
  split.
  { unfold overlay, set_entry, set_public_path.
    rewrite !bind_assoc.
    rewrite (bind_alloc (length h)) by done.
    rewrite bind_set_prop by len.
    rewrite !bind_assoc.
    rewrite bind_get_prop by len. observe. rewrite Ho. reflexivity. }
  split; [len|]. split; [apply field_set_eq; len|]. split.
  - intros l k Hl Hne.
    destruct (decide (lc = l)) as [<-|Hl'].
    + rewrite field_set_ne by naive_solver. by apply field_app_l.
    + rewrite field_set_ne_loc by done. by apply field_app_l.
  - intros l Hl. rewrite kind_at_set. by apply kind_at_app_l.
Qed.

Lemma overlay_throws_after_entry_witness :
  lacks sample_without_output 0 "output" ∧
  ∃ h',
    overlay (pk := sample_packages) (VRef 0) sample_without_output
    = Throw (CannotSetProperty "publicPath" VUndefined) h' ∧
    length h' = length sample_without_output + 1 ∧
    field h' 0 "entry" = Some (VRef (length sample_without_output)) ∧
    (∀ l k, l < length sample_without_output → ¬ (l = 0 ∧ k = "entry") →
            field h' l k = field sample_without_output l k) ∧
    (∀ l, l < length sample_without_output →
          kind_at h' l = kind_at sample_without_output l).
Proof.
  assert (lacks sample_without_output 0 "output") as Ho
    by (split; [simpl; lia|reflexivity]).
  split; [exact Ho|].
  apply (overlay_throws_after_entry (pk := sample_packages) sample_without_output 0 Ho).
Defined.

(** ** Every outcome of the script *)

Section runs.
Context {A : Type}.
Implicit Types (h : heap) (v x : value) (k : string).

Lemma bind_run {B} (m : JS B) (f : B → JS A) h b h' :
  m h = Return b h' → bind m f h = f b h'.
Proof. unfold bind. by intros ->. Qed.

Lemma bind_throw {B} (m : JS B) (f : B → JS A) h e h' :
  m h = Throw e h' → bind m f h = Throw e h'.
Proof. unfold bind. by intros ->. Qed.
End runs.

Lemma get_prop_run h v k :
  ¬ nullish v → value_in (length h) v → get_prop v k h = Return (read h v k) h.
Proof.
  intros Hn Hv. destruct v as [| | | | |l]; try done.
  - destruct Hn. by left.
  - destruct Hn. by right.
  - simpl in *. unfold field. by destruct (lookup_lt_is_Some_2 h l Hv) as [o ->].
Qed.

Lemma set_prop_run h v k x :
  ¬ nullish v → value_in (length h) v → set_prop v k x h = Return () (assign v k x h).
Proof.
  intros Hn Hv. destruct v as [| | | | |l]; try done.
  - destruct Hn. by left.
  - destruct Hn. by right.
  - simpl in *. by destruct (lookup_lt_is_Some_2 h l Hv) as [o ->].
Qed.

Lemma get_method_run h v k :
  ¬ nullish v → value_in (length h) v →
  get_method v k h = Return (method_of h v k) h.
Proof.
  intros Hn Hv. destruct v as [| | | | |l]; try done.
  - destruct Hn. by left.
  - destruct Hn. by right.
  - simpl in *. unfold field, kind_at.
    destruct (lookup_lt_is_Some_2 h l Hv) as [o ->]. simpl.
    by destruct (props o !! k).
Qed.

Lemma get_prop_nullish h v k :
  nullish v → get_prop v k h = Throw (CannotReadProperty k v) h.
Proof. by intros [-> | ->]. Qed.

Lemma set_prop_nullish h v k x :
  nullish v → set_prop v k x h = Throw (CannotSetProperty k v) h.
Proof. by intros [-> | ->]. Qed.

Lemma get_method_nullish h v k :
  nullish v → get_method v k h = Throw (CannotReadProperty k v) h.
Proof. by intros [-> | ->]. Qed.

Lemma read_nullish h v k : nullish v → read h v k = VUndefined.
Proof. by intros [-> | ->]. Qed.

Lemma method_of_concat h v : method_of h v "concat" ≠ Some ArrayPush.
Proof.
  destruct v as [| | | | |l]; try done. simpl.
  destruct (field h l "concat"); [done|].
  by destruct (kind_at h l) as [[]|].
Qed.

Lemma method_of_push h v m :
  method_of h v "push" = Some m →
  m = ArrayPush ∧ ∃ l es, v = VRef l ∧ kind_at h l = Some (KArray es) ∧
                          field h l "push" = None.
Proof.
  destruct v as [| | | | |l]; try done. simpl.
  destruct (field h l "push") eqn:F; [done|].
  destruct (kind_at h l) as [[|es| |]|] eqn:E; simpl; try done.
  intros [= <-]. split; [done|]. by exists l, es.
Qed.

(** The [constructor] that fails [concat], from what is observed of the
    store. *)
Lemma species_of_spec h l :
  species_of h (VRef l)
  = match kind_at h l, field h l "constructor" with
    | Some (KArray _), Some v =>
        match v with
        | VUndefined | VRef _ => None
        | _ => Some v
        end
    | _, _ => None
    end.
Proof.
  unfold species_of, species_fault, kind_at, field.
  by destruct (h !! l) as [o|].
Qed.

Lemma species_of_method h v x :
  species_of h v = Some x → ∃ l es, v = VRef l ∧ kind_at h l = Some (KArray es).
Proof.
  destruct v as [| | | | |l]; try done. rewrite species_of_spec.
  destruct (kind_at h l) as [[|es| |]|] eqn:E; try done. intros _. by exists l, es.
Qed.

Lemma call_concat_run h k this arg :
  species_of h this = None →
  call (Some ArrayConcat) k this arg h
  = Return (VRef (length h)) (h ++ [array (spread h this ++ spread h arg)]).
Proof. unfold call. by intros ->. Qed.

Lemma call_concat_throw h k this arg x :
  species_of h this = Some x →
  call (Some ArrayConcat) k this arg h = Throw (NotAConstructor x) h.
Proof. unfold call. by intros ->. Qed.

(** What a store that extends [h0] and keeps it outside [T] still tells. *)
Section kept.
Variable h0 : heap.
Implicit Types (T : loc → string → Prop) (h : heap) (v x : value) (k : string).

Lemma kept_refl T : kept T h0 h0.
Proof. by split; [|split]. Qed.

Lemma kept_weaken T T' h :
  (∀ l k, T l k → T' l k) → kept T h0 h → kept T' h0 h.
Proof. intros HT (Hl & Hf & Hk). split; [done|]. split; [|done]. naive_solver. Qed.

Lemma kept_alloc T h o : kept T h0 h → kept T h0 (h ++ [o]).
Proof.
  intros (Hl & Hf & Hk). split; [len|]. split.
  - intros l k ? ?. rewrite field_app_l by lia. by apply Hf.
  - intros l ?. rewrite kind_at_app_l by lia. by apply Hk.
Qed.

Lemma kept_alter_new T h (f : object → object) l :
  (length h0 ≤ l)%nat → kept T h0 h → kept T h0 (alter f l h).
Proof.
  intros Hl0 (Hl & Hf & Hk). split; [len|]. split.
  - intros l' k ? ?. rewrite field_alter_ne by lia. by apply Hf.
  - intros l' ?. rewrite kind_at_alter_ne by lia. by apply Hk.
Qed.

Lemma kept_assign T h v k x :
  (∀ l, v = VRef l → T l k) → kept T h0 h → kept T h0 (assign v k x h).
Proof.
  intros HT (Hl & Hf & Hk). destruct v as [| | | | |l]; try done. simpl.
  split; [len|]. split.
  - intros l' k' ? Hn. destruct (decide (l = l')) as [<-|?].
    + rewrite field_set_ne; [by apply Hf|]. intros <-. apply Hn. by apply HT.
    + rewrite field_set_ne_loc by done. by apply Hf.
  - intros l' ?. rewrite kind_at_set. by apply Hk.
Qed.

Lemma kept_value T h v : kept T h0 h → value_in (length h0) v → value_in (length h) v.
Proof. intros (Hl & _) Hv. destruct v; simpl in *; try done. lia. Qed.

Lemma kept_read T h v k :
  kept T h0 h → value_in (length h0) v → (∀ l, v = VRef l → ¬ T l k) →
  read h v k = read h0 v k.
Proof.
  intros (_ & Hf & _) Hv HT. destruct v as [| | | | |l]; try done.
  simpl in *. rewrite Hf; [done..|]. by apply HT.
Qed.

Lemma kept_method T h v k :
  kept T h0 h → value_in (length h0) v → (∀ l, v = VRef l → ¬ T l k) →
  method_of h v k = method_of h0 v k.
Proof.
  intros (_ & Hf & Hk) Hv HT. destruct v as [| | | | |l]; try done.
  simpl in *. rewrite Hf, Hk; [done..|]. by apply HT.
Qed.

Lemma kept_species T h v :
  kept T h0 h → value_in (length h0) v → (∀ l, v = VRef l → ¬ T l "constructor") →
  species_of h v = species_of h0 v.
Proof.
  intros (_ & Hf & Hk) Hv HT. destruct v as [| | | | |l]; try done.
  simpl in Hv. rewrite !species_of_spec, Hf, Hk; [done..|]. by apply HT.
Qed.
End kept.

Lemma call_push_run h l k es x :
  kind_at h l = Some (KArray es) →
  call (Some ArrayPush) k (VRef l) x h
  = Return (VNum (Z.of_nat (S (length es)))) (alter (push_elem x) l h).
Proof.
  unfold call, kind_at. destruct (h !! l) as [o|]; [simpl|done]. by intros [= ->].
Qed.

(** The statements one by one, from any store [h] that extends a closed store
    [h0] and keeps it outside the slots assigned so far. *)
Section statements.
Context {pk : Packages}.
Variables (h0 : heap) (c : value).
Hypothesis closed : heap_closed h0.
Hypothesis config_in : value_in (length h0) c.

Let vo : value := read h0 c "output".
Let T (ks : list string) : loc → string → Prop := touched_by c vo ks.

Lemma not_touched ks l k : k ∉ ks → k ≠ "publicPath" → ¬ T ks l k.
Proof. intros Hk Hp [[_ ?] | [_ ?]]; done. Qed.

Lemma touched_weaken k ks l k' : T ks l k' → T (k :: ks) l k'.
Proof. intros [[? ?] | ?]; [left|by right]. split; [done|]. by apply elem_of_cons; right. Qed.

Lemma set_entry_outcome ks h :
  kept (T ks) h0 h →
  match set_entry c h with
  | Return _ h' => ¬ nullish c ∧ kept (T ("entry" :: ks)) h0 h'
  | Throw e h' => nullish c ∧ e = CannotSetProperty "entry" c ∧ kept (T ks) h0 h'
  end.
Proof.
  intros Hk. unfold set_entry.
  rewrite (bind_alloc (length h)) by done.
  apply (kept_alloc _ _ _ (array [VStr dev_client; VStr hot_runtime; VStr app_entry])) in Hk.
  destruct (decide (nullish c)) as [Hn|Hn].
  - by rewrite set_prop_nullish.
  - rewrite set_prop_run by (done || by eapply kept_value).
    split; [done|]. apply kept_assign.
    + intros l ->. left. split; [done|]. by apply elem_of_cons; left.
    + eapply kept_weaken; [|done]. apply touched_weaken.
Qed.

Lemma set_public_path_outcome ks h :
  ¬ nullish c → "output" ∉ ks → kept (T ks) h0 h →
  match set_public_path c h with
  | Return _ h' => ¬ nullish vo ∧ kept (T ks) h0 h'
  | Throw e h' => nullish vo ∧ e = CannotSetProperty "publicPath" vo ∧ kept (T ks) h0 h'
  end.
Proof.
  intros Hc Hks Hk. unfold set_public_path.
  erewrite bind_run by (apply get_prop_run; [done|by eapply kept_value]).
  rewrite (kept_read h0 (T ks)) by (done || intros; by apply not_touched).
  fold vo. destruct (decide (nullish vo)) as [Hn|Hn].
  - by rewrite set_prop_nullish.
  - rewrite set_prop_run; [|done|eapply kept_value; [done|by apply read_in]].
    split; [done|]. apply kept_assign; [|done]. intros l Hl. by right.
Qed.

Lemma extend_plugins_outcome ks h :
  ¬ nullish c → "plugins" ∉ ks → "concat" ∉ ks → "constructor" ∉ ks →
  kept (T ks) h0 h →
  let vp := read h0 c "plugins" in
  match extend_plugins c h with
  | Return _ h' =>
      ¬ nullish vp ∧ is_Some (method_of h0 vp "concat") ∧ species_of h0 vp = None ∧
      kept (T ("plugins" :: ks)) h0 h'
  | Throw e h' =>
      ((nullish vp ∧ e = CannotReadProperty "concat" vp) ∨
       (¬ nullish vp ∧ method_of h0 vp "concat" = None ∧ e = NotAFunction "concat") ∨
       (¬ nullish vp ∧ is_Some (method_of h0 vp "concat") ∧
        ∃ x, species_of h0 vp = Some x ∧ e = NotAConstructor x)) ∧
      kept (T ks) h0 h'
  end.
Proof.
  intros Hc Hks Hks' Hks'' Hk vp. unfold extend_plugins.
  erewrite bind_run by (apply get_prop_run; [done|by eapply kept_value]).
  rewrite (kept_read h0 (T ks)) by (done || intros; by apply not_touched).
  cbv beta.
  fold vp. destruct (decide (nullish vp)) as [Hn|Hn].
  { erewrite bind_throw by (by apply get_method_nullish). split; [by left|done]. }
  assert (value_in (length h0) vp) as Hvp by (by apply read_in).
  erewrite bind_run by (apply get_method_run; [done|by eapply kept_value]).
  rewrite (kept_method h0 (T ks)) by (done || intros; by apply not_touched).
  cbv beta.
  rewrite (bind_construct (length h)) by done.
  rewrite (bind_construct (length h + 1)) by len.
  rewrite (bind_alloc (length h + 2)) by len.
  rewrite (bind_construct_with (length h + 2) (length h + 3)) by len.
  rewrite (bind_alloc (length h + 4)) by len.
  match goal with
  | |- context [bind _ _ ?hh] =>
      assert (kept (T ks) h0 hh) as Hk' by (repeat apply kept_alloc; exact Hk);
      set (h' := hh) in *
  end.
  assert (species_of h' vp = species_of h0 vp) as Hsp.
  { apply (kept_species h0 (T ks)); [done..|]. intros; by apply not_touched. }
  destruct (method_of h0 vp "concat") as [[| |]|] eqn:Em.
  - destruct (species_of h0 vp) as [x|] eqn:Ex.
    + erewrite bind_throw by (by apply call_concat_throw).
      split; [|done]. right; right. split; [done|]. split; [by eexists|]. by exists x.
    + erewrite bind_run by (by apply call_concat_run).
      eapply kept_alloc in Hk'.
      rewrite set_prop_run by (done || by eapply kept_value).
      split; [done|]. split; [by eexists|]. split; [done|]. apply kept_assign.
      * intros l ->. left. split; [done|]. by apply elem_of_cons; left.
      * eapply kept_weaken; [|done]. apply touched_weaken.
  - by destruct (method_of_concat h0 vp).
  - erewrite bind_run by reflexivity.
    rewrite set_prop_run by (done || by eapply kept_value).
    split; [done|]. split; [by eexists|]. split.
    { destruct (species_of h0 vp) as [x|] eqn:Ex; [|done].
      destruct (species_of_method _ _ _ Ex) as (l & es & -> & Hes).
      simpl in Em. destruct (field h0 l "concat"); [done|]. by rewrite Hes in Em. }
    apply kept_assign.
    + intros l ->. left. split; [done|]. by apply elem_of_cons; left.
    + eapply kept_weaken; [|done]. apply touched_weaken.
  - erewrite bind_throw by reflexivity. split; [right; by left|done].
Qed.

Lemma set_devtool_outcome ks h :
  ¬ nullish c → kept (T ks) h0 h →
  ∃ h', set_devtool c h = Return () h' ∧ kept (T ("devtool" :: ks)) h0 h'.
Proof.
  intros Hc Hk. unfold set_devtool. eexists.
  rewrite set_prop_run by (done || by eapply kept_value).
  split; [done|]. apply kept_assign.
  - intros l ->. left. split; [done|]. by apply elem_of_cons; left.
  - eapply kept_weaken; [|done]. apply touched_weaken.
Qed.

Lemma push_rule_outcome ks h :
  ¬ nullish c → "module" ∉ ks → "rules" ∉ ks → "push" ∉ ks → kept (T ks) h0 h →
  let vm := read h0 c "module" in
  let vr := read h0 vm "rules" in
  match push_rule c h with
  | Return _ h' =>
      ¬ nullish vm ∧ ¬ nullish vr ∧
      ∃ lr es x,
        vr = VRef lr ∧ kind_at h0 lr = Some (KArray es) ∧ field h0 lr "push" = None ∧
        (length h0 < length h')%nat ∧
        (∀ l k, l < length h0 → ¬ T ks l k → field h' l k = field h0 l k) ∧
        (∀ l, l < length h0 → l ≠ lr → kind_at h' l = kind_at h0 l) ∧
        kind_at h' lr = Some (KArray (es ++ [VRef x])) ∧ (length h0 ≤ x)%nat
  | Throw e h' =>
      ((nullish vm ∧ e = CannotReadProperty "rules" vm) ∨
       (¬ nullish vm ∧ nullish vr ∧ e = CannotReadProperty "push" vr) ∨
       (¬ nullish vm ∧ ¬ nullish vr ∧ method_of h0 vr "push" = None ∧
        e = NotAFunction "push")) ∧
      kept (T ks) h0 h'
  end.
Proof.
  intros Hc Hm Hr Hp Hk vm vr. unfold push_rule.
  erewrite bind_run by (apply get_prop_run; [done|by eapply kept_value]).
  rewrite (kept_read h0 (T ks)) by (done || intros; by apply not_touched).
  cbv beta.
  fold vm. destruct (decide (nullish vm)) as [Hnm|Hnm].
  { erewrite bind_throw by (by apply get_prop_nullish). split; [by left|done]. }
  assert (value_in (length h0) vm) as Hvm by (by apply read_in).
  erewrite bind_run by (apply get_prop_run; [done|by eapply kept_value]).
  rewrite (kept_read h0 (T ks)) by (done || intros; by apply not_touched).
  cbv beta.
  fold vr. destruct (decide (nullish vr)) as [Hnr|Hnr].
  { erewrite bind_throw by (by apply get_method_nullish).
    split; [right; by left|done]. }
  assert (value_in (length h0) vr) as Hvr by (by apply read_in).
  erewrite bind_run by (apply get_method_run; [done|by eapply kept_value]).
  rewrite (kept_method h0 (T ks)) by (done || intros; by apply not_touched).
  cbv beta.
  rewrite (bind_alloc (length h)) by done.
  rewrite (bind_alloc (length h + 1)) by len.
  rewrite (bind_alloc (length h + 2)) by len.
  rewrite (bind_alloc (length h + 3)) by len.
  match goal with
  | |- context [call _ _ _ _ ?hh] =>
      assert (kept (T ks) h0 hh) as Hk' by (repeat apply kept_alloc; exact Hk)
  end.
  destruct (method_of h0 vr "push") as [m|] eqn:Em.
  - destruct (method_of_push _ _ _ Em) as (-> & lr & es & -> & Hes & Hpush).
    destruct Hk' as (_ & Hf & Hkd). destruct Hk as (Hl & _ & _). simpl in Hvr.
    rewrite (call_push_run _ _ _ es) by (by rewrite Hkd).
    split; [done|]. split; [done|].
    exists lr, es, (length h + 3). split; [done|]. split; [done|]. split; [done|].
    split; [revert Hl; len|]. split.
    { intros l k ? ?. rewrite field_push. by apply Hf. }
    split.
    { intros l ? ?. rewrite kind_at_push_ne by done. by apply Hkd. }
    split; [apply kind_at_push_eq; by rewrite Hkd|].
    revert Hl. len.
  - split; [right; by right|done].
Qed.
End statements.

Ltac settle_fault :=
  unfold fault_of;
  repeat first
    [ rewrite decide_True by done
    | rewrite decide_False by done
    | match goal with H : method_of _ _ _ = _ |- _ => rewrite H end
    | match goal with H : species_of _ _ = _ |- _ => rewrite H end ];
  try done.

(** The whole script: its outcome is read from the store it starts in. *)
Lemma overlay_outcome {pk : Packages} h c :
  heap_closed h → value_in (length h) c →
  let vo := read h c "output" in
  let vr := read h (read h c "module") "rules" in
  match overlay c h with
  | Return v h' =>
      fault_of h c = None ∧ v = c ∧ length h < length h' ∧
      (∀ l k, l < length h → ¬ touched_by c vo ["devtool"; "plugins"; "entry"] l k →
              field h' l k = field h l k) ∧
      ∃ lr es x,
        vr = VRef lr ∧ kind_at h lr = Some (KArray es) ∧
        (∀ l, l < length h → l ≠ lr → kind_at h' l = kind_at h l) ∧
        kind_at h' lr = Some (KArray (es ++ [VRef x])) ∧ (length h ≤ x)%nat
  | Throw e h' =>
      fault_of h c = Some e ∧
      kept (touched_by c vo ["devtool"; "plugins"; "entry"]) h h'
  end.
Proof.
  intros Hc Hv vo vr. unfold overlay, bind.
  pose proof (set_entry_outcome h c Hv [] h (kept_refl _ _)) as H1.
  destruct (set_entry c h) as [[] h1|e h1].
  2:{ destruct H1 as (Hn & -> & H1). split; [settle_fault|].
      eapply kept_weaken; [|done]. intros l k [[? ?] | ?]; [set_solver|by right]. }
  destruct H1 as [Hn H1].
  assert (∀ k, k ≠ "entry" → k ∉ ["entry"]) as K1 by set_solver.
  assert (∀ k, k ≠ "plugins" → k ≠ "entry" → k ∉ ["plugins"; "entry"]) as K2
    by set_solver.
  assert (∀ k, k ≠ "devtool" → k ≠ "plugins" → k ≠ "entry" →
               k ∉ ["devtool"; "plugins"; "entry"]) as K3 by set_solver.
  pose proof (set_public_path_outcome h c Hc Hv ["entry"] h1 Hn
                (K1 "output" ltac:(done)) H1) as H2.
  destruct (set_public_path c h1) as [[] h2|e h2].
  2:{ destruct H2 as (Ho & -> & H2). split; [settle_fault|].
      eapply kept_weaken; [|done]. intros l k [[? ?] | ?]; [left|by right].
      split; [done|set_solver]. }
  destruct H2 as [Ho H2].
  pose proof (extend_plugins_outcome h c Hc Hv ["entry"] h2 Hn
                (K1 "plugins" ltac:(done)) (K1 "concat" ltac:(done))
                (K1 "constructor" ltac:(done)) H2) as H3.
  cbv zeta in H3.
  destruct (extend_plugins c h2) as [[] h3|e h3].
  2:{ destruct H3 as [H3 H3']. split.
      - destruct H3 as [[Hp ->] | [(Hp & Hm & ->) | (Hp & [m Hm] & x & Hx & ->)]];
          settle_fault.
      - eapply kept_weaken; [|done]. intros l k [[? ?] | ?]; [left|by right].
        split; [done|set_solver]. }
  destruct H3 as (Hp & [m Hm] & Hsp & H3).
  destruct (set_devtool_outcome h c Hv ["plugins"; "entry"] h3 Hn H3) as (h4 & -> & H4).
  pose proof (push_rule_outcome h c Hc Hv ["devtool"; "plugins"; "entry"] h4 Hn
                (K3 "module" ltac:(done) ltac:(done) ltac:(done))
                (K3 "rules" ltac:(done) ltac:(done) ltac:(done))
                (K3 "push" ltac:(done) ltac:(done) ltac:(done)) H4) as H5.
  cbv zeta in H5.
  destruct (push_rule c h4) as [a h5|e h5].
  2:{ destruct H5 as [H5 H5']. split; [|done].
      destruct H5 as [[Hmod ->] | [(Hmod & Hr & ->) | (Hmod & Hr & Hpush & ->)]];
        settle_fault. }
  destruct H5 as (Hmod & Hr & lr & es & x & Hvr & Hes & Hpush & Hlen & Hf & Hk & Hk' & Hx).
  split.
  { settle_fault. rewrite Hvr. simpl. by rewrite Hpush, Hes. }
  split; [done|]. split; [done|]. split; [done|].
  by exists lr, es, x.
Qed.

Lemma read_not_nullish h v k :
  ¬ nullish (read h v k) → ∃ l, v = VRef l ∧ field h l k = Some (read h v k).
Proof.
  destruct v as [| | | | |l]; simpl; try (intros H; destruct H; by left).
  destruct (field h l k) as [x|] eqn:F; simpl; [intros _; by exists l|].
  intros H. destruct H. by left.
Qed.

Lemma method_of_has_concat h v :
  is_Some (method_of h v "concat") ∧ species_of h v = None ↔ has_concat h v.
Proof.
  split.
  - intros [[m Hm] Hs]. destruct v as [| | | | |l]; try done.
    { left. by eexists. }
    right. simpl in Hm. destruct (field h l "concat") eqn:F; [done|].
    destruct (kind_at h l) as [[|es| |]|] eqn:E; try done.
    exists l, es. split; [done|]. split; [done|]. split; [done|].
    rewrite species_of_spec, E in Hs. unfold default_species.
    destruct (field h l "constructor") as [[| | | | |l']|]; try done; eauto.
  - intros [[s ->] | (lp & ps & -> & Hk & Hf & Hs)].
    { split; [by eexists|done]. }
    split; [simpl; rewrite Hf, Hk; by eexists|].
    rewrite species_of_spec, Hk.
    by destruct Hs as [-> | [-> | [l' ->]]].
Qed.

Lemma fault_of_None h c : fault_of h c = None ↔ runs_through h c.
Proof.
  split.
  - unfold fault_of. intros Hf.
    destruct (decide (nullish c)); [done|].
    destruct (decide (nullish (read h c "output"))) as [|Ho]; [done|].
    destruct (decide (nullish (read h c "plugins"))) as [|Hp]; [done|].
    destruct (method_of h (read h c "plugins") "concat") as [m|] eqn:Em; [|done].
    destruct (species_of h (read h c "plugins")) as [x|] eqn:Es; [done|].
    destruct (decide (nullish (read h c "module"))) as [|Hm]; [done|].
    destruct (decide (nullish (read h (read h c "module") "rules"))) as [|Hr]; [done|].
    destruct (method_of h (read h (read h c "module") "rules") "push") as [m'|] eqn:Em';
      [|done].
    destruct (read_not_nullish _ _ _ Ho) as (lc & -> & Hfo).
    destruct (read_not_nullish _ _ _ Hp) as (? & [= <-] & Hfp).
    destruct (read_not_nullish _ _ _ Hm) as (? & [= <-] & Hfm).
    destruct (read_not_nullish _ _ _ Hr) as (lm & Hlm & Hfr).
    destruct (method_of_push _ _ _ Em') as (_ & lr & rs & Hlr & Hk & Hpush).
    exists lc, (read h (VRef lc) "output"), (read h (VRef lc) "plugins"), lm, lr, rs.
    rewrite Hlm in Hfm. rewrite Hlr in Hfr.
    repeat split; try done. apply method_of_has_concat. split; [by eexists|done].
  - intros (lc & vo & vp & lm & lr & rs & -> & Ho & Hno & Hp & Hc & Hm & Hr & Hk & Hpush).
    apply method_of_has_concat in Hc as [[m Hc] Hs].
    assert (¬ nullish vp) as Hnp.
    { intros [-> | ->]; done. }
    unfold fault_of. simpl. rewrite Ho, Hp, Hm. simpl. rewrite Hr. simpl.
    rewrite Hpush, Hk. simpl.
    rewrite !decide_False by done. by rewrite Hc, Hs.
Qed.

(** X5. Which error ends the script is decided by the store it starts in, in
    the order of the statements: a configuration that is [undefined] or
    [null] cannot be assigned [entry]; then an [output] that is [undefined]
    or [null] cannot be assigned [publicPath]; then [concat] cannot be read
    from a [plugins] that is [undefined] or [null], is not a function on one
    that is neither an array nor a string, and cannot build its result for an
    array whose own [constructor] is [null], a boolean, a number or a string;
    then [rules] cannot be read from a [module] that is [undefined] or
    [null], [push] cannot be read from a [rules] that is, and is not a
    function on a [rules] that is not an array.  The script throws exactly the
    first of these that applies, and returns exactly when none does. *)
Theorem overlay_fault {pk : Packages} h c :
  heap_closed h → value_in (length h) c →
  (∀ e, (∃ h', overlay c h = Throw e h') ↔ fault_of h c = Some e) ∧
  ((∃ v h', overlay c h = Return v h') ↔ fault_of h c = None).
Proof.
  intros Hc Hv. pose proof (overlay_outcome h c Hc Hv) as H. cbv zeta in H.
  destruct (overlay c h) as [v h'|e h'].
  - destruct H as [Hf _]. split.
    + intros e. rewrite Hf. split; [by intros [? ?]|done].
    + split; [done|]. intros _. by exists v, h'.
  - destruct H as [H _]. split.
    + intros e'. rewrite H. split.
      * by intros [? [= ->]].
      * intros [= ->]. by exists h'.
    + rewrite H. split; [by intros (? & ? & ?)|done].
Qed.

Lemma overlay_fault_witness :
  (∃ h', overlay (pk := sample_packages) (VRef 0) sample_with_plugins_object
         = Throw (NotAFunction "concat") h') ∧
  (∃ h', overlay (pk := sample_packages) (VRef 0) sample_with_plugins_species
         = Throw (NotAConstructor (VNum 5)) h') ∧
  (∃ h', overlay (pk := sample_packages) VNull sample_heap
         = Throw (CannotSetProperty "entry" VNull) h') ∧
  (∃ v h', overlay (pk := sample_packages) sample_config sample_heap = Return v h').
Proof.
  split; [|split; [|split]].
  - apply (overlay_fault (pk := sample_packages) sample_with_plugins_object (VRef 0)
             sample_with_plugins_object_closed).
    + simpl. lia.
    + reflexivity.
  - apply (overlay_fault (pk := sample_packages) sample_with_plugins_species (VRef 0)).
    + apply (bool_decide_unpack _). vm_compute. reflexivity.
    + simpl. lia.
    + reflexivity.
  - by apply (overlay_fault (pk := sample_packages) sample_heap VNull sample_closed).
  - apply (overlay_fault (pk := sample_packages) sample_heap sample_config sample_closed).
    + simpl. lia.
    + reflexivity.
Defined.

(** X6. The script returns on exactly these configurations: an object whose
    [output] is neither [undefined] nor [null], whose [plugins] is a string,
    or an array that does not shadow [concat] and whose own [constructor], if
    it has one, is [undefined] or an object, and whose [module] is an object
    whose [rules] is an array that does not shadow [push]. *)
Theorem overlay_returns_iff {pk : Packages} h c :
  heap_closed h → value_in (length h) c →
  (∃ v h', overlay c h = Return v h') ↔ runs_through h c.
Proof.
  intros Hc Hv. rewrite <- fault_of_None.
  pose proof (overlay_outcome h c Hc Hv) as H. cbv zeta in H.
  destruct (overlay c h) as [v h'|e h'].
  - destruct H as [Hf _]. split; [done|]. intros _. by exists v, h'.
  - destruct H as [H _]. rewrite H. split; [by intros (? & ? & ?)|done].
Qed.

Lemma overlay_returns_iff_witness :
  heap_closed sample_with_output_string ∧
  value_in (length sample_with_output_string) (VRef 0) ∧
  ((∃ v h', overlay (pk := sample_packages) (VRef 0) sample_with_output_string = Return v h') ↔
   runs_through sample_with_output_string (VRef 0)).
Proof.
  assert (heap_closed sample_with_output_string) as Hc
    by (apply (bool_decide_unpack _); vm_compute; reflexivity).
  assert (value_in (length sample_with_output_string) (VRef 0)) as Hv
    by (simpl; lia).
  split; [exact Hc|]. split; [exact Hv|].
  apply (overlay_returns_iff (pk := sample_packages) sample_with_output_string (VRef 0) Hc Hv).
Defined.

(** X7. Whenever the script returns, whatever the configuration, it returns
    the value it was given, and it has left the objects of the store as they
    were but for this: the configuration's [entry], [plugins] and [devtool],
    the [publicPath] of its [output], and the array [module.rules], which has
    exactly one more element at its end, a reference to a new object. *)
Theorem overlay_returns_frame {pk : Packages} h c v h' :
  heap_closed h → value_in (length h) c →
  overlay c h = Return v h' →
  v = c ∧ length h < length h' ∧
  (∀ l k, l < length h →
          ¬ touched_by c (read h c "output") ["devtool"; "plugins"; "entry"] l k →
          field h' l k = field h l k) ∧
  ∃ lr es x,
    read h (read h c "module") "rules" = VRef lr ∧
    kind_at h lr = Some (KArray es) ∧
    (∀ l, l < length h → l ≠ lr → kind_at h' l = kind_at h l) ∧
    kind_at h' lr = Some (KArray (es ++ [VRef x])) ∧ (length h ≤ x)%nat.
Proof.
  intros Hc Hv Hrun. pose proof (overlay_outcome h c Hc Hv) as H.
  cbv zeta in H. rewrite Hrun in H.
  destruct H as (_ & ? & ? & ? & ?). done.
Qed.

Lemma sample_with_plugins_string_closed : heap_closed sample_with_plugins_string.
Proof. apply (bool_decide_unpack _). vm_compute. reflexivity. Qed.

Lemma sample_with_output_string_closed : heap_closed sample_with_output_string.
Proof. apply (bool_decide_unpack _). vm_compute. reflexivity. Qed.

Lemma overlay_returns_frame_witness :
  ∃ v h',
    overlay (pk := sample_packages) (VRef 0) sample_with_plugins_string = Return v h' ∧
    v = VRef 0 ∧ length sample_with_plugins_string < length h' ∧
    (∀ l k, l < length sample_with_plugins_string →
            ¬ touched_by (VRef 0) (read sample_with_plugins_string (VRef 0) "output")
                ["devtool"; "plugins"; "entry"] l k →
            field h' l k = field sample_with_plugins_string l k) ∧
    ∃ lr es x,
      read sample_with_plugins_string
        (read sample_with_plugins_string (VRef 0) "module") "rules" = VRef lr ∧
      kind_at sample_with_plugins_string lr = Some (KArray es) ∧
      (∀ l, l < length sample_with_plugins_string → l ≠ lr →
            kind_at h' l = kind_at sample_with_plugins_string l) ∧
      kind_at h' lr = Some (KArray (es ++ [VRef x])) ∧
      (length sample_with_plugins_string ≤ x)%nat.
Proof.
  destruct (overlay (pk := sample_packages) (VRef 0) sample_with_plugins_string) as [v h'|e h'] eqn:E;
    [|vm_compute in E; discriminate E].
  exists v, h'. split; [reflexivity|].
  apply (overlay_returns_frame (pk := sample_packages) sample_with_plugins_string (VRef 0) v h'
           sample_with_plugins_string_closed).
  - simpl. lia.
  - exact E.
Defined.

(** X8. The script is not in strict mode: when the configuration's [output]
    is a primitive (a string, say) and the script returns, the assignment of
    [publicPath] has been dropped without an error.  [output] is still that
    primitive, no object of the store has a new [publicPath], and
    [config.output.publicPath] is [undefined]. *)
Theorem overlay_drops_public_path {pk : Packages} h lc vo v h' :
  heap_closed h →
  field h lc "output" = Some vo → (∀ l, vo ≠ VRef l) →
  overlay (VRef lc) h = Return v h' →
  field h' lc "output" = Some vo ∧
  (∀ l, l < length h → field h' l "publicPath" = field h l "publicPath") ∧
  read h' (read h' (VRef lc) "output") "publicPath" = VUndefined.
Proof.
  intros Hc Ho Hvo Hrun.
  pose proof (field_Some _ _ _ _ Ho) as Hlc.
  pose proof (overlay_outcome h (VRef lc) Hc Hlc) as H.
  cbv zeta in H. rewrite Hrun in H.
  destruct H as (_ & _ & _ & Hf & _).
  assert (read h (VRef lc) "output" = vo) as Er by (simpl; by rewrite Ho).
  rewrite Er in Hf.
  assert (field h' lc "output" = Some vo) as Ho'.
  { rewrite Hf; [done..|]. intros [[_ ?] | [_ ?]]; [set_solver|done]. }
  split; [done|]. split.
  - intros l Hl. apply Hf; [done|].
    intros [[_ ?] | [? _]]; [set_solver|]. by eapply Hvo.
  - simpl. rewrite Ho'. simpl. destruct vo; try done. by destruct (Hvo l).
Qed.

Lemma overlay_drops_public_path_witness :
  ∃ v h',
    overlay (pk := sample_packages) (VRef 0) sample_with_output_string = Return v h' ∧
    field h' 0 "output" = Some (VStr "assets/bundles") ∧
    (∀ l, l < length sample_with_output_string →
          field h' l "publicPath" = field sample_with_output_string l "publicPath") ∧
    read h' (read h' (VRef 0) "output") "publicPath" = VUndefined.
Proof.
  destruct (overlay (pk := sample_packages) (VRef 0) sample_with_output_string) as [v h'|e h'] eqn:E;
    [|vm_compute in E; discriminate E].
  exists v, h'. split; [reflexivity|].
  apply (overlay_drops_public_path (pk := sample_packages) sample_with_output_string 0
           (VStr "assets/bundles") v h' sample_with_output_string_closed).
  - reflexivity.
  - discriminate.
  - exact E.
Defined.

(** ** A [plugins] that is a string *)

Lemma push_rule_run {pk : Packages} {B} (rest : value → JS B) h lc lm lr rs :
  field h lc "module" = Some (VRef lm) →
  field h lm "rules" = Some (VRef lr) →
  kind_at h lr = Some (KArray rs) → field h lr "push" = None →
  bind (push_rule (VRef lc)) rest h
  = rest (VNum (Z.of_nat (S (length rs))))
      (alter (push_elem (VRef (length h + 3))) lr
         (h ++ [regexp jsx_re; regexp node_modules_re; array [VStr "babel-loader"];
                plain (<["test" := VRef (length h)]>
                         (<["exclude" := VRef (length h + 1)]>
                            {[ "loaders" := VRef (length h + 2) ]}))])).
Proof.
  intros Hm Hr Hk Hp.
  pose proof (kind_at_Some _ _ _ Hk) as Hlr.
  unfold push_rule. rewrite !bind_assoc.
  rewrite (bind_get_prop_Some _ _ (VRef lm)) by done.
  rewrite !bind_assoc.
  rewrite (bind_get_prop_Some _ _ (VRef lr)) by done.
  rewrite !bind_assoc.
  rewrite (bind_get_method _ _ (KArray rs)) by done.
  rewrite !bind_assoc.
  rewrite (bind_alloc (length h)) by done.
  rewrite !bind_assoc.
  rewrite (bind_alloc (length h + 1)) by len.
  rewrite !bind_assoc.
  rewrite (bind_alloc (length h + 2)) by len.
  rewrite !bind_assoc.
  rewrite (bind_alloc (length h + 3)) by len.
  change (inherited (KArray rs) "push") with (Some ArrayPush).
  rewrite (bind_push _ _ rs) by (by rewrite !kind_at_app_l by len).
  f_equal. by rewrite <- !app_assoc.
Qed.

Lemma display_instance fuel h l c args :
  kind_at h l = Some (KInstance c args) → display fuel h (VRef l) = "[object Object]".
Proof. unfold kind_at. intros Hk. destruct fuel; simpl; by rewrite Hk. Qed.

Lemma display_instances fuel h l a b c :
  kind_at h l = Some (KArray [VRef a; VRef b; VRef c]) →
  (∀ x, x ∈ [a; b; c] → ∃ ctor args, kind_at h x = Some (KInstance ctor args)) →
  display (S fuel) h (VRef l) = "[object Object],[object Object],[object Object]".
Proof.
  intros Hk Hi.
  destruct (Hi a) as (? & ? & Ha); [set_solver|].
  destruct (Hi b) as (? & ? & Hb); [set_solver|].
  destruct (Hi c) as (? & ? & Hc); [set_solver|].
  cbn [display]. unfold kind_at in Hk. rewrite Hk. cbn [map join].
  by rewrite (display_instance _ _ _ _ _ Ha), (display_instance _ _ _ _ _ Hb),
    (display_instance _ _ _ _ _ Hc).
Qed.

(** X9. A [plugins] that is a string does not stop the script: [concat] is
    then the method of strings.  The script returns, and the configuration's
    [plugins] is the string it was, followed by the text of the array of the
    three plugin instances. *)
Theorem overlay_string_plugins {pk : Packages} h lc lo s lm lr rs :
  heap_closed h →
  field h lc "output" = Some (VRef lo) →
  field h lc "plugins" = Some (VStr s) →
  field h lc "module" = Some (VRef lm) →
  field h lm "rules" = Some (VRef lr) →
  kind_at h lr = Some (KArray rs) → field h lr "push" = None →
  ∃ h',
    overlay (VRef lc) h = Return (VRef lc) h' ∧
    field h' lc "plugins"
    = Some (VStr (s +:+ "[object Object],[object Object],[object Object]")).
Proof.
  intros Hc Ho Hp Hm Hr Hrk Hrp.
  pose proof (field_Some _ _ _ _ Ho) as Hlc.
  pose proof (heap_closed_field _ _ _ _ Hc Ho) as Hlo.
  pose proof (heap_closed_field _ _ _ _ Hc Hm) as Hlm.
  pose proof (kind_at_Some _ _ _ Hrk) as Hlr.
  eexists. unfold overlay, set_entry, set_public_path, extend_plugins, set_devtool.
  rewrite !bind_assoc.
  rewrite (bind_alloc (length h)) by done.
  rewrite bind_set_prop by len.
  rewrite !bind_assoc.
  rewrite (bind_get_prop_Some _ _ (VRef lo)) by (by observe).
  rewrite bind_set_prop by len.
  rewrite !bind_assoc.
  rewrite (bind_get_prop_Some _ _ (VStr s)) by (by observe).
  rewrite !bind_assoc.
  erewrite (bind_run (get_method (VStr s) "concat")) by reflexivity.
  change (if String.eqb "concat" "concat" then Some StringConcat else None)
    with (Some StringConcat).
  rewrite !bind_assoc.
  rewrite (bind_construct (length h + 1)) by len.
  rewrite !bind_assoc.
  rewrite (bind_construct (length h + 2)) by len.
  rewrite !bind_assoc.
  rewrite (bind_alloc (length h + 3)) by len.
  rewrite !bind_assoc.
  rewrite (bind_construct_with (length h + 3) (length h + 4)) by len.
  rewrite !bind_assoc.
  rewrite (bind_alloc (length h + 5)) by len.
  rewrite !bind_assoc.
  erewrite (bind_run (call (Some StringConcat) _ _ _)) by reflexivity.
  rewrite (display_instances 1 _ _ (length h + 1) (length h + 2) (length h + 4)).
  2:{ by apply kind_at_snoc; len. }
  2:{ intros x Hx. rewrite !elem_of_cons, elem_of_nil in Hx.
      destruct Hx as [-> | [-> | [-> | []]]]; eexists _, _.
      - rewrite !kind_at_app_l by len. rewrite kind_at_snoc by len. reflexivity.
      - rewrite !kind_at_app_l by len. rewrite kind_at_snoc by len. reflexivity.
      - rewrite !kind_at_app_l by len. rewrite kind_at_snoc by len. reflexivity. }
  change (display 2 _ (VStr s)) with s.
  rewrite bind_set_prop by len.
  rewrite bind_set_prop by len.
  rewrite (push_rule_run _ _ lc lm lr rs).
  2:{ by observe. }
  2:{ by observe. }
  2:{ observe. by rewrite ?kind_at_app_l by len. }
  2:{ by observe. }
  split; [reflexivity|].
  observe. apply field_set_eq. len.
Qed.

Lemma overlay_string_plugins_witness :
  ∃ h',
    overlay (pk := sample_packages) (VRef 0) sample_with_plugins_string = Return (VRef 0) h' ∧
    field h' 0 "plugins"
    = Some (VStr ("provide" +:+ "[object Object],[object Object],[object Object]")).
Proof.
  apply (overlay_string_plugins (pk := sample_packages) sample_with_plugins_string 0 1 "provide" 2 3 []
           sample_with_plugins_string_closed).
  - reflexivity.
  - reflexivity.
  - reflexivity.
  - reflexivity.
  - reflexivity.
  - reflexivity.
Defined.

(** X10. Whenever the script throws, whatever the configuration, the store it
    throws with still holds every object it held, every one of them with its
    kind and, for an array, its elements: no rule has been pushed.  The
    properties are as they were, but for the configuration's [entry],
    [plugins] and [devtool] and the [publicPath] of its [output], which the
    statements before the failing one may have assigned. *)
Theorem overlay_throws_frame {pk : Packages} h c e h' :
  heap_closed h → value_in (length h) c →
  overlay c h = Throw e h' →
  (length h ≤ length h')%nat ∧
  (∀ l k, l < length h →
          ¬ touched_by c (read h c "output") ["devtool"; "plugins"; "entry"] l k →
          field h' l k = field h l k) ∧
  (∀ l, l < length h → kind_at h' l = kind_at h l).
Proof.
  intros Hc Hv Hrun. pose proof (overlay_outcome h c Hc Hv) as H.
  cbv zeta in H. rewrite Hrun in H. by destruct H as [_ ?].
Qed.

Lemma overlay_throws_frame_witness :
  ∃ e h',
    overlay (pk := sample_packages) (VRef 0) sample_with_plugins_object = Throw e h' ∧
    (length sample_with_plugins_object ≤ length h')%nat ∧
    (∀ l k, l < length sample_with_plugins_object →
            ¬ touched_by (VRef 0) (read sample_with_plugins_object (VRef 0) "output")
                ["devtool"; "plugins"; "entry"] l k →
            field h' l k = field sample_with_plugins_object l k) ∧
    (∀ l, l < length sample_with_plugins_object →
          kind_at h' l = kind_at sample_with_plugins_object l).
Proof.
  destruct (overlay (pk := sample_packages) (VRef 0) sample_with_plugins_object) as [v h'|e h'] eqn:E;
    [vm_compute in E; discriminate E|].
  exists e, h'. split; [reflexivity|].
  apply (overlay_throws_frame (pk := sample_packages) sample_with_plugins_object (VRef 0) e h'
           sample_with_plugins_object_closed).
  - simpl. lia.
  - exact E.
Defined.
